(** * QDax example notebooks: PBT orchestration and the PBT selector

    A shallow embedding of the glue code of the example notebooks
    (SAC-PBT, TD3-PBT, CMA-ES, MOME, NSGA2/SPEA2) and of the PBT
    selection protocol they call.

    Python integers are unbounded, so they are embedded as [Z]; the
    floor division [//] by a positive divisor is [Z.div].  JAX arrays
    are immutable values, so every library entry point is a pure
    function of its arguments. *)

From Stdlib Require Import ZArith QArith Lia.
From stdpp Require Import base list sorting.

(* ================================================================== *)
(** ** Hyperparameter cells of the two PBT notebooks *)
(* ================================================================== *)

(** The keyword arguments of the call [PBT(population_size=...,
    num_best_to_replace_from=..., num_worse_to_replace=...)]. *)
Record PBT := mkPBT {
  population_size : Z;
  num_best_to_replace_from : Z;
  num_worse_to_replace : Z
}.

(** The hyperparameter cell of a PBT notebook: the constants it binds
    before the selector is built. *)
Record Hyper := mkHyper {
  population_size_per_device : Z;
  global_num_best_to_replace_from : Z;
  global_num_worse_to_replace : Z
}.

(** SAC-PBT notebook: [population_size_per_device = 10],
    [num_best_to_replace_from = 20], [num_worse_to_replace = 40]. *)
Definition sac_hyper : Hyper := mkHyper 10 20 40.

(** TD3-PBT notebook: [population_size_per_device = 3],
    [num_best_to_replace_from = 1], [num_worse_to_replace = 1]. *)
Definition td3_hyper : Hyper := mkHyper 3 1 1.

(** The cell
[[
pbt = PBT(
    population_size=population_size,
    num_best_to_replace_from=num_best_to_replace_from // num_devices,
    num_worse_to_replace=num_worse_to_replace // num_devices,
)
]]
    with [population_size = population_size_per_device * num_devices]
    bound in the hyperparameter cell.  The cell has no branch and no
    check: it builds the selector whatever the remainders are. *)
Definition pbt_cell (h : Hyper) (num_devices : Z) : PBT :=
  let population_size := (population_size_per_device h * num_devices)%Z in
  mkPBT population_size
        (global_num_best_to_replace_from h / num_devices)%Z
        (global_num_worse_to_replace h / num_devices)%Z.

Definition sac_pbt (num_devices : Z) : PBT := pbt_cell sac_hyper num_devices.
Definition td3_pbt (num_devices : Z) : PBT := pbt_cell td3_hyper num_devices.

(** The ReplacementSpec invariant, as a checkable predicate. *)
Definition replacement_invariant (c : PBT) : bool :=
  (0 <=? num_best_to_replace_from c)%Z
  && (num_best_to_replace_from c <=? population_size c)%Z
  && (0 <=? num_worse_to_replace c)%Z
  && (num_worse_to_replace c <=? population_size c)%Z
  && (num_best_to_replace_from c + num_worse_to_replace c <=? population_size c)%Z.

(** Modelled from the spec: the two caller errors of the selector. *)
Inductive Error := InvalidInput | InvalidConfig.

(** Modelled from the spec: the configuration check of the selector
    (the PBT class is imported by the notebooks, not defined in them).
    [InvalidConfig] is raised for negative counts and for
    [K_best + K_worse > population_size]. *)
Definition check_config (c : PBT) : option Error :=
  if (num_best_to_replace_from c <? 0)%Z
     || (num_worse_to_replace c <? 0)%Z
     || (population_size c <? num_best_to_replace_from c + num_worse_to_replace c)%Z
  then Some InvalidConfig
  else None.

(* ================================================================== *)
(** ** The outer training loop of the PBT notebooks *)
(* ================================================================== *)

(** [range(n)] for a Python integer [n]: empty when [n <= 0]. *)
Definition range (n : Z) : list Z := map Z.of_nat (seq 0 (Z.to_nat n)).

(** Both notebooks bind [print_freq = 1]. *)
Definition print_freq : Z := 1.

Section OuterLoop.
(** The sharded arrays the loop threads through, left opaque. *)
Context {TrainingStates EnvStates ReplayBuffers Keys Metrics : Type}.
Context {EvalStates Returns : Type}.

(** The pmapped library entry points, [jnp.reshape(_, (population_size,))]
    included.  They are jitted pure functions. *)
Variable train_fn :
  TrainingStates -> EnvStates -> ReplayBuffers ->
  (TrainingStates * EnvStates * ReplayBuffers) * Metrics.
Variable eval_policy : TrainingStates -> EvalStates -> Returns * Metrics.
Variable select_fn :
  Keys -> Returns -> TrainingStates -> ReplayBuffers ->
  Keys * TrainingStates * ReplayBuffers.
Variable reshape_returns : Returns -> Returns.

(** The notebook's global variables that the loop reads or rebinds.
    [metrics] and [population_returns_flatten] are unbound before the
    first iteration. *)
Record Globals := mkGlobals {
  training_states : TrainingStates;
  env_states : EnvStates;
  replay_buffers : ReplayBuffers;
  keys : Keys;
  eval_env_first_states : EvalStates;
  population_returns : Returns;
  population_returns_flatten : option Returns;
  metrics : option Metrics
}.

(** Calls made by the loop, tagged with the loop variable [i] and
    recorded with their arguments. *)
Inductive Call :=
| CallTrain (i : Z) (ts : TrainingStates) (es : EnvStates) (rb : ReplayBuffers)
| CallEval (i : Z) (ts : TrainingStates) (first_states : EvalStates)
| CallPrint (i : Z) (flat : Returns)
| CallSelect (i : Z) (k : Keys) (ret : Returns)
             (ts : TrainingStates) (rb : ReplayBuffers).

Definition call_iteration (c : Call) : Z :=
  match c with
  | CallTrain i _ _ _ | CallEval i _ _ | CallPrint i _ | CallSelect i _ _ _ _ => i
  end.

Definition is_train (c : Call) : bool :=
  match c with CallTrain _ _ _ _ => true | _ => false end.
Definition is_eval (c : Call) : bool :=
  match c with CallEval _ _ _ => true | _ => false end.
Definition is_select (c : Call) : bool :=
  match c with CallSelect _ _ _ _ _ => true | _ => false end.

(** One pass through the body of
[[
for i in tqdm(range(num_loops), total=num_loops):
  (training_states, env_states, replay_buffers), metrics = train_fn(
      training_states, env_states, replay_buffers)
  population_returns, _ = eval_policy(training_states, eval_env_first_states)
  population_returns_flatten = jnp.reshape(population_returns, (population_size,))
  if i % print_freq == 0:
      print(...)
  if i < (num_loops-1):
      keys, training_states, replay_buffers = select_fn(
          keys, population_returns, training_states, replay_buffers)
]]
    returning the rebound globals and the calls made, in order. *)
Definition loop_body (num_loops i : Z) (g : Globals) : Globals * list Call :=
  let '((ts, es, rb), m) :=
    train_fn (training_states g) (env_states g) (replay_buffers g) in
  let c_train := CallTrain i (training_states g) (env_states g) (replay_buffers g) in
  let '(ret, _) := eval_policy ts (eval_env_first_states g) in
  let c_eval := CallEval i ts (eval_env_first_states g) in
  let flat := reshape_returns ret in
  let c_print :=
    if (i mod print_freq =? 0)%Z then [CallPrint i flat] else [] in
  if (i <? num_loops - 1)%Z then
    let '(k', ts', rb') := select_fn (keys g) ret ts rb in
    (mkGlobals ts' es rb' k' (eval_env_first_states g) ret (Some flat) (Some m),
     c_train :: c_eval :: c_print ++ [CallSelect i (keys g) ret ts rb])
  else
    (mkGlobals ts es rb (keys g) (eval_env_first_states g) ret (Some flat) (Some m),
     c_train :: c_eval :: c_print).

(** The calls of one iteration, spelled out. *)
Definition iteration_calls (num_loops i : Z) (g : Globals) : list Call :=
  let '((ts, es, rb), _) :=
    train_fn (training_states g) (env_states g) (replay_buffers g) in
  let ret := fst (eval_policy ts (eval_env_first_states g)) in
  CallTrain i (training_states g) (env_states g) (replay_buffers g)
  :: CallEval i ts (eval_env_first_states g)
  :: CallPrint i (reshape_returns ret)
  :: (if (i <? num_loops - 1)%Z then [CallSelect i (keys g) ret ts rb] else []).

(** The [for] statement over an explicit list of loop-variable values. *)
Fixpoint for_each (num_loops : Z) (idxs : list Z) (g : Globals)
  : Globals * list Call :=
  match idxs with
  | [] => (g, [])
  | i :: idxs' =>
      let '(g1, c1) := loop_body num_loops i g in
      let '(g2, c2) := for_each num_loops idxs' g1 in
      (g2, c1 ++ c2)
  end.

Definition outer_loop (num_loops : Z) (g : Globals) : Globals * list Call :=
  for_each num_loops (range num_loops) g.

(** The globals at the start of iteration [i]. *)
Definition globals_before (num_loops i : Z) (g : Globals) : Globals :=
  fst (for_each num_loops (range i) g).
End OuterLoop.

Arguments Globals : clear implicits.
Arguments Call : clear implicits.

(* ================================================================== *)
(** ** The CMA-ES optimisation loop *)
(* ================================================================== *)

Section CmaesLoop.
Context {State RNGKey Samples Mean Cov : Type}.

(** [cmaes.sample], [cmaes.update], [cmaes.stop_condition], and the two
    expressions stored for plotting: [state.mean] and
    [(state.sigma**2) * state.cov_matrix]. *)
Variable sample : State -> RNGKey -> Samples * RNGKey.
Variable update : State -> Samples -> State.
Variable stop_condition : State -> bool.
Variable state_mean : State -> Mean.
Variable scaled_cov : State -> Cov.

Record CmaesVars := mkCmaesVars {
  state : State;
  random_key : RNGKey;
  samples : option Samples;
  means : list Mean;
  covs : list Cov;
  iteration_count : Z
}.

(** The cell's bindings before the [for] statement. *)
Definition cmaes_init (st : State) (key : RNGKey) : CmaesVars :=
  mkCmaesVars st key None [state_mean st] [scaled_cov st] 0.

(** [for _ in range(num_iterations)], with the [break]; [fuel] is the
    number of values [range] still has to yield. *)
Fixpoint cmaes_for (fuel : nat) (v : CmaesVars) : CmaesVars :=
  match fuel with
  | O => v
  | S fuel' =>
      let count := (iteration_count v + 1)%Z in
      let '(smp, key) := sample (state v) (random_key v) in
      let st := update (state v) smp in
      if stop_condition st then
        mkCmaesVars st key (Some smp) (means v) (covs v) count
      else
        cmaes_for fuel'
          (mkCmaesVars st key (Some smp)
             (means v ++ [state_mean st]) (covs v ++ [scaled_cov st]) count)
  end.

Definition cmaes_loop (num_iterations : Z) (st : State) (key : RNGKey)
  : CmaesVars :=
  cmaes_for (Z.to_nat num_iterations) (cmaes_init st key).

(** One sample/update round without the bookkeeping. *)
Definition cmaes_round (st : State) (key : RNGKey) : State * RNGKey :=
  let '(smp, key') := sample st key in (update st smp, key').

(** The optimiser state and key after [k] sample/update rounds. *)
Fixpoint cmaes_trajectory (k : nat) (st : State) (key : RNGKey)
  : State * RNGKey :=
  match k with
  | O => (st, key)
  | S k' => let '(st', key') := cmaes_round st key in
            cmaes_trajectory k' st' key'
  end.

Definition state_after (k : nat) (st : State) (key : RNGKey) : State :=
  fst (cmaes_trajectory k st key).
End CmaesLoop.

(* ================================================================== *)
(** ** [jax.lax.scan] as used by the MOME, NSGA2 and SPEA2 notebooks *)
(* ================================================================== *)

(** [jax.lax.scan(f, init, (), length=n)]: with the empty [xs] every call
    of [f] receives [()]; the result is the final carry and the stacked
    per-iteration outputs.  [length] is a non-negative count. *)
Fixpoint scan {Carry Y : Type} (f : Carry -> unit -> Carry * Y)
    (init : Carry) (length : nat) : Carry * list Y :=
  match length with
  | O => (init, [])
  | S n =>
      let '(c, y) := f init tt in
      let '(c', ys) := scan f c n in
      (c', y :: ys)
  end.

(** The carry after [n] applications of the scanned function. *)
Fixpoint scan_carry {Carry Y : Type} (f : Carry -> unit -> Carry * Y)
    (init : Carry) (n : nat) : Carry :=
  match n with
  | O => init
  | S n' => scan_carry f (fst (f init tt)) n'
  end.

Section ScanNotebooks.
Context {Repertoire EmitterState RNGKey Metrics : Type}.
Variable scan_update :
  Repertoire * EmitterState * RNGKey -> unit ->
  (Repertoire * EmitterState * RNGKey) * Metrics.

(** The cell [(repertoire, emitter_state, random_key), metrics =
    jax.lax.scan(algo.scan_update, (repertoire, emitter_state,
    random_key), (), length=num_iterations)], shared by the MOME, NSGA2
    and SPEA2 notebooks (the latter two drop the metrics). *)
Definition run_scan_cell (num_iterations : nat)
    (repertoire : Repertoire) (emitter_state : EmitterState)
    (random_key : RNGKey)
  : (Repertoire * EmitterState * RNGKey) * list Metrics :=
  scan scan_update (repertoire, emitter_state, random_key) num_iterations.
End ScanNotebooks.

(* ================================================================== *)
(** ** Small concrete instances used to run the loops *)
(* ================================================================== *)

(** A bookkeeping agent: the training state counts the calls of
    [train_fn], the key counts the calls of [select_fn], and the return of
    a member is its number of training rounds. *)
Definition counting_train (ts es rb : nat) : (nat * nat * nat) * unit :=
  ((S ts, es, rb), tt).
Definition counting_eval (ts fs : nat) : nat * unit := (ts + fs, tt).
Definition counting_select (k ret ts rb : nat) : nat * nat * nat :=
  (S k, ts, rb).
Definition counting_globals : Globals nat nat nat nat unit nat nat :=
  mkGlobals 0 0 0 0 7 0 None None.
Definition counting_loop (num_loops : Z)
  : Globals nat nat nat nat unit nat nat * list (Call nat nat nat nat nat nat) :=
  outer_loop counting_train counting_eval counting_select id
             num_loops counting_globals.

(** A toy optimiser whose state counts its updates and whose stop
    condition fires once three updates have been made. *)
Definition toy_sample (st : nat) (key : nat) : unit * nat := (tt, S key).
Definition toy_update (st : nat) (_ : unit) : nat := S st.
Definition toy_stop (st : nat) : bool := (3 <=? st)%nat.
Definition toy_cmaes (num_iterations : Z) : CmaesVars :=
  cmaes_loop toy_sample toy_update toy_stop id id num_iterations 0%nat 0%nat.

(* ================================================================== *)
(** ** [unshard_fn] and the choice of the best member *)
(* ================================================================== *)

Section Unshard.
(** A leaf of a sharded tree is an array of shape
    [(num_devices, population_size_per_device) + rest]: a list of
    per-device rows whose entries (of type [A]) are the sub-arrays of
    shape [rest]. *)
Context {A : Type}.

Definition has_shape (num_devices per_device : nat) (x : list (list A)) : Prop :=
  length x = num_devices /\ Forall (fun row => length row = per_device) x.

(** [jnp.reshape(x, (population_size,) + x.shape[2:])]: the entries are
    kept in row-major order; the call raises when the number of
    entries is not [population_size]. *)
Definition reshape_leaf (population_size : nat) (x : list (list A))
  : option (list A) :=
  if (length (concat x) =? population_size)%nat then Some (concat x) else None.

(** [jax.tree_map] over the leaves ([device_put] does not change
    values), failing when one reshape fails. *)
Definition unshard_fn (population_size : nat) (sharded_tree : list (list (list A)))
  : option (list (list A)) :=
  mapM (reshape_leaf population_size) sharded_tree.

(** [x[d][j]] on a sharded leaf. *)
Definition at_device_slot (x : list (list A)) (d j : nat) : option A :=
  x !! d ≫= fun row => row !! j.
End Unshard.

(** [jnp.argmax] over a flat array of finite values: the first index
    holding the maximum; the call raises on an empty array. *)
Fixpoint argmax_from (best_i : nat) (best : Q) (i : nat) (l : list Q) : nat :=
  match l with
  | [] => best_i
  | x :: l' =>
      if Qlt_le_dec best x
      then argmax_from i x (S i) l'
      else argmax_from best_i best (S i) l'
  end.

Definition argmax (l : list Q) : option nat :=
  match l with
  | [] => None
  | x :: l' => Some (argmax_from 0 x 1 l')
  end.

(** [best_idx = jnp.argmax(population_returns)] on the sharded returns:
    without an axis, the array is flattened first. *)
Definition best_idx (population_returns : list (list Q)) : option nat :=
  argmax (concat population_returns).

(* ================================================================== *)
(** ** The PBT selector *)
(* ================================================================== *)

(** The notebooks import the selector ([from qdax.baselines.pbt import
    PBT]) and only call it; its body is not part of them.  The
    definitions of this part follow the written contract of
    [select_and_replace]. *)

(** Modelled from the spec: a return value handed to the selector of
    [qdax.baselines.pbt], a finite number or NaN.  Finite floating-point
    values are rationals, compared as such. *)
Inductive Return := Finite (q : Q) | NaN.

(** Modelled from the spec: the NaN test of the selector's input check. *)
Definition is_nan (r : Return) : bool :=
  match r with NaN => true | Finite _ => false end.

(** Modelled from the spec: a population member of the selector, an
    aggregate of training state (parameters, optimiser state, target
    networks, step counters), the hyperparameters subject to
    perturbation, and a replay buffer. *)
Record Member {T H B : Type} := mkMember {
  training_state : T;
  hyperparameters : H;
  replay_buffer : B
}.
Arguments Member : clear implicits.
Arguments mkMember {T H B}.

(** Modelled from the spec: the opaque, splittable seed threaded through
    the selector, with splitting and the draw of an index below a
    positive bound. *)
Class Rng := {
  RngState : Type;
  rng_split : RngState -> RngState * RngState;
  rng_below : RngState -> nat -> nat;
  rng_below_lt : forall (k : RngState) (n : nat),
      (0 < n)%nat -> (rng_below k n < n)%nat
}.

(** Modelled from the spec: the return of member [i] once the input has
    been validated (no NaN, index in range). *)
Definition value_at (returns : list Return) (i : nat) : Q :=
  match returns !! i with
  | Some (Finite q) => q
  | _ => 0%Q
  end.

(** Modelled from the spec: the ranking order of step 1 of the selector.
    Member [i] is ranked no later than member [j] when its return is
    higher, or when the returns are equal and [i] is the lower index. *)
Definition ranks_before (returns : list Return) (i j : nat) : bool :=
  match (value_at returns j ?= value_at returns i)%Q with
  | Lt => true
  | Eq => (i <=? j)%nat
  | Gt => false
  end.

(** Modelled from the spec: the ranking order of the selector as a
    relation. *)
Definition rank_le (returns : list Return) (i j : nat) : Prop :=
  ranks_before returns i j = true.

#[global] Instance rank_le_dec (returns : list Return) (i j : nat) :
  Decision (rank_le returns i j) :=
  decide (ranks_before returns i j = true).

(** Modelled from the spec: step 1 of the selector, "rank members by
    returns descending, ties broken by original index", as an
    O(n log n) merge sort of the indices. *)
Definition ranking (returns : list Return) : list nat :=
  merge_sort (rank_le returns) (seq 0 (length returns)).

(** Modelled from the spec: step 2 of the selector, the top [K_best]
    indices of the ranking. *)
Definition best_indices (returns : list Return) (k_best : Z) : list nat :=
  take (Z.to_nat k_best) (ranking returns).

(** Modelled from the spec: step 2 of the selector, the bottom
    [K_worse] indices of the ranking. *)
Definition worse_indices (returns : list Return) (k_worse : Z) : list nat :=
  drop (length returns - Z.to_nat k_worse) (ranking returns).

(** Modelled from the spec: the input check of the selector.
    [InvalidInput] is raised when a length differs from
    [population_size] or a return is NaN. *)
Definition check_input {M : Type} (population_size : Z)
    (returns : list Return) (population : list M) : option Error :=
  if negb (Z.of_nat (length returns) =? population_size)%Z
     || negb (Z.of_nat (length population) =? population_size)%Z
     || existsb is_nan returns
  then Some InvalidInput
  else None.

(** Modelled from the spec: all checks of the selector, made before
    anything else. *)
Definition validate {M : Type} (spec : PBT)
    (returns : list Return) (population : list M) : option Error :=
  match check_input (population_size spec) returns population with
  | Some e => Some e
  | None => check_config spec
  end.

Section Selector.
Context {rng : Rng} {T H B : Type}.

(** The random perturbation of a hyperparameter value under a fresh key,
    left to the agent. *)
Variable resample : RngState -> H -> H.

(** Modelled from the spec: step 5 of the selector on one member; only
    the hyperparameters change. *)
Definition perturb (k : RngState) (m : Member T H B) : Member T H B :=
  mkMember (training_state m) (resample k (hyperparameters m)) (replay_buffer m).

(** Modelled from the spec: step 3 of the selector.  For each worse
    index, in ranking order, the key is split, a source is drawn from
    [best] with replacement, and a fresh key is kept for the
    perturbation of that slot.  The contract does not say what a draw
    from an empty [best] is; no pair is built then. *)
Fixpoint build_mapping (k : RngState) (best worse : list nat)
  : list (nat * nat * RngState) :=
  match worse with
  | [] => []
  | w :: worse' =>
      let '(k', sub) := rng_split k in
      let '(k_draw, k_perturb) := rng_split sub in
      match best !! rng_below k_draw (length best) with
      | Some s => (w, s, k_perturb) :: build_mapping k' best worse'
      | None => build_mapping k' best worse'
      end
  end.

(** Modelled from the spec: steps 4 and 5 of the selector for one pair.
    The slot [w] receives the whole state of member [s] of the input
    population, with its hyperparameters perturbed when the option is
    set. *)
Definition replace_member (perturb_hyperparameters : bool)
    (population : list (Member T H B))
    (p : list (Member T H B)) (pair : nat * nat * RngState)
  : list (Member T H B) :=
  let '(w, s, k_perturb) := pair in
  match population !! s with
  | Some src =>
      <[w := if perturb_hyperparameters then perturb k_perturb src else src]> p
  | None => p
  end.

(** Modelled from the spec: steps 4 and 5 of the selector over the whole
    mapping; sources are read from the input population. *)
Definition apply_mapping (perturb_hyperparameters : bool)
    (population : list (Member T H B))
    (mapping : list (nat * nat * RngState)) : list (Member T H B) :=
  fold_left (replace_member perturb_hyperparameters population)
            mapping population.

(** Modelled from the spec: the contract
    [select_and_replace(rng_state, returns, population, spec) ->
     (new_rng_state, new_population)], with the configuration option
    [perturb_hyperparameters]. *)
Definition select_and_replace (perturb_hyperparameters : bool)
    (rng_state : RngState) (returns : list Return)
    (population : list (Member T H B)) (spec : PBT)
  : Error + (RngState * list (Member T H B)) :=
  match validate spec returns population with
  | Some e => inl e
  | None =>
      let best := best_indices returns (num_best_to_replace_from spec) in
      let worse := worse_indices returns (num_worse_to_replace spec) in
      let '(new_rng_state, k) := rng_split rng_state in
      inr (new_rng_state,
           apply_mapping perturb_hyperparameters population
                         (build_mapping k best worse))
  end.

(** Modelled from the spec: what step 1 of the selector asks of a
    ranking, every index once and in ranking order. *)
Definition is_ranking (returns : list Return) (l : list nat) : Prop :=
  l ≡ₚ seq 0 (length returns) /\ StronglySorted (rank_le returns) l.

End Selector.

(* ================================================================== *)
(** ** Concrete inputs for the selector and for [unshard_fn] *)
(* ================================================================== *)

(** A splittable counter as seed: splitting descends a binary tree of
    keys, and a draw below [n] is the key modulo [n]. *)
#[global] Instance tree_rng : Rng := {|
  RngState := nat;
  rng_split := fun k => (2 * k + 1, 2 * k + 2)%nat;
  rng_below := fun k n => (k mod n)%nat;
  rng_below_lt := fun k n Hn =>
    Nat.mod_upper_bound k n (proj2 (Nat.neq_0_lt_0 n) Hn)
|}.

(** Members whose three components are numbers. *)
Definition member (t h b : nat) : Member nat nat nat := mkMember t h b.

Definition four_members : list (Member nat nat nat) :=
  [member 0 100 1000; member 1 101 1001; member 2 102 1002; member 3 103 1003].

(** A perturbation that adds the key to the hyperparameter. *)
Definition add_key (k : nat) (h : nat) : nat := (h + k)%nat.

(** The two scenarios of the selector's contract. *)
Definition returns_distinct : list Return :=
  [Finite 10; Finite 30; Finite 5; Finite 20].
Definition returns_with_nan : list Return :=
  [Finite 10; NaN; Finite 5; Finite 20].

(** Two devices with three members each: one leaf of member ids and
    the matching sharded returns. *)
Definition two_by_three_tree : list (list (list nat)) :=
  [[[10; 11; 12]; [13; 14; 15]]]%nat.
Definition two_by_three_returns : list (list Q) :=
  [[1; 5; 2]; [3; 9; 0]]%Q.

(* ================================================================== *)
(** ** The cells around the CMA-ES loop *)
(* ================================================================== *)

(** A slice bound of a Python list of length [len]: a negative bound
    counts from the end, and every bound is clipped to [0 .. len]. *)
Definition slice_index (len : nat) (i : Z) : nat :=
  if (i <? 0)%Z then Z.to_nat (Z.max 0 (i + Z.of_nat len))
  else Nat.min (Z.to_nat i) len.

(** [l[start:stop]]. *)
Definition py_slice {A : Type} (start stop : Z) (l : list A) : list A :=
  take (slice_index (length l) stop - slice_index (length l) start)
       (drop (slice_index (length l) start) l).

Section CmaesCells.
Context {State RNGKey Samples Mean Cov : Type}.

(** The plotting cell:
[[
traj_min = 0
traj_max = iteration_count
for mean, cov in zip(means[traj_min:traj_max], covs[traj_min:traj_max]):
]]
    the pairs the [for] statement draws. *)
Definition plotted_trajectory
    (v : @CmaesVars State RNGKey Samples Mean Cov) : list (Mean * Cov) :=
  let traj_min := 0%Z in
  let traj_max := iteration_count v in
  zip (py_slice traj_min traj_max (means v))
      (py_slice traj_min traj_max (covs v)).

(** [means[-1]], printed as the final mean of the distribution; an
    [IndexError] on an empty list. *)
Definition final_mean
    (v : @CmaesVars State RNGKey Samples Mean Cov) : option Mean :=
  last (means v).
End CmaesCells.

(* ================================================================== *)
(** ** [init_environments] of the PBT notebooks *)
(* ================================================================== *)

Section InitEnvironments.
(** An environment state is a tree of arrays, here the list of its
    leaves; a leaf with leading dimension [n] is a list of [n] entries
    of type [A] (the sub-arrays of the trailing shape). *)
Context {Name Env RNGKey A : Type}.

(** [environments.create(env_name=, batch_size=, episode_length=,
    auto_reset=)] and the [reset] method of an environment. *)
Variable create : Name -> nat -> Z -> bool -> Env.
Variable reset : Env -> RNGKey -> list (list A).

Variable env_name : Name.
Variable env_batch_size : nat.
Variable population_size_per_device : nat.
Variable episode_length : Z.

(** The cell that binds [env] and [eval_env]. *)
Definition make_env : Env :=
  create env_name (env_batch_size * population_size_per_device)
         episode_length true.
Definition make_eval_env : Env :=
  create env_name (env_batch_size * population_size_per_device)
         episode_length true.

(** The rows of a row-major reshape to [(rows, width) + rest]. *)
Fixpoint chunks (rows width : nat) (x : list A) : list (list A) :=
  match rows with
  | O => []
  | S rows' => take width x :: chunks rows' width (drop width x)
  end.

(** [jnp.reshape(x, (population_size_per_device, env_batch_size) +
    x.shape[1:])]; the call raises when the leading dimension of [x] is
    not the product of the two. *)
Definition reshape_rows (rows width : nat) (x : list A)
  : option (list (list A)) :=
  if (length x =? rows * width)%nat then Some (chunks rows width x) else None.

Definition reshape_fn (tree : list (list A)) : option (list (list (list A))) :=
  mapM (reshape_rows population_size_per_device env_batch_size) tree.

(** [init_environments(random_key)]: both resets receive the same key. *)
Definition init_environments (random_key : RNGKey)
  : option (list (list (list A)) * list (list (list A))) :=
  let env_states := reset make_env random_key in
  let eval_env_first_states := reset make_eval_env random_key in
  match reshape_fn env_states with
  | None => None
  | Some env_states =>
      match reshape_fn eval_env_first_states with
      | None => None
      | Some eval_env_first_states => Some (env_states, eval_env_first_states)
      end
  end.
End InitEnvironments.

(* ================================================================== *)
(** ** The rollout cells of the SAC-PBT notebook *)
(* ================================================================== *)

Section Rollout.
Context {EnvState TrainingState Transition : Type}.

(** [functools.partial(agent.play_step_fn, env=env, deterministic=True,
    evaluation=True)]. *)
Variable play_step :
  EnvState -> TrainingState -> EnvState * TrainingState * Transition.

(** [jnp.expand_dims(x, axis=0)] on every leaf: a leading axis of
    size one. *)
Definition expand_dims {X : Type} (x : X) : list X := [x].

(** [jax.pmap(..., devices=devices[:1])]: the mapped axis must have
    size one. *)
Definition play_step_fn (env_state : list EnvState)
    (training_state : list TrainingState)
  : option (list EnvState * list TrainingState * list Transition) :=
  match env_state, training_state with
  | [e], [t] =>
      let '(e', t', tr) := play_step e t in Some ([e'], [t'], [tr])
  | _, _ => None
  end.

(** The loop
[[
for _ in range(episode_length):
    rollout.append(env_state)
    env_state, training_state, _ = play_step_fn(env_state, training_state)
]] *)
Fixpoint rollout_for (fuel : nat) (rollout : list (list EnvState))
    (env_state : list EnvState) (training_state : list TrainingState)
  : option (list (list EnvState) * list EnvState * list TrainingState) :=
  match fuel with
  | O => Some (rollout, env_state, training_state)
  | S fuel' =>
      let rollout := rollout ++ [env_state] in
      match play_step_fn env_state training_state with
      | Some (env_state, training_state, _) =>
          rollout_for fuel' rollout env_state training_state
      | None => None
      end
  end.

(** The cells from [rollout = []] to
    [rollout = [jax.tree_map(lambda x: ...x[0]..., env_state) for
    env_state in rollout]]; [x[0]] raises on an empty axis. *)
Definition rollout_cells (episode_length : Z)
    (training_state : TrainingState) (env_state : EnvState)
  : option (list EnvState) :=
  match rollout_for (Z.to_nat episode_length) []
                    (expand_dims env_state) (expand_dims training_state) with
  | Some (rollout, _, _) => mapM head rollout
  | None => None
  end.

(** [rollout[:episode_length]], the states handed to the renderer. *)
Definition rendered_states (episode_length : Z) (rollout : list EnvState)
  : list EnvState :=
  py_slice 0 episode_length rollout.

(** The environment and training state after [t] plain play steps. *)
Fixpoint play_trajectory (t : nat) (e : EnvState) (ts : TrainingState)
  : EnvState * TrainingState :=
  match t with
  | O => (e, ts)
  | S t' => let '(e', ts', _) := play_step e ts in play_trajectory t' e' ts'
  end.
End Rollout.

(* ================================================================== *)
(** ** The plotting cells of the MOME notebook *)
(* ================================================================== *)

(** The arrays of these cells hold 32-bit signed integers (the default
    integer type of [jnp]): arithmetic on them wraps around. *)
Definition wrap_int32 (z : Z) : Z :=
  ((z + 2147483648) mod 4294967296 - 2147483648)%Z.

Definition in_int32 (z : Z) : bool :=
  (-2147483648 <=? z)%Z && (z <=? 2147483647)%Z.

(** The values of [jnp.arange(start=, stop=)] on integers. *)
Definition arange (start stop : Z) : list Z :=
  map (fun i => (start + Z.of_nat i)%Z) (seq 0 (Z.to_nat (stop - start))).

(** [steps = batch_size * jnp.arange(start=0, stop=num_iterations)]:
    the Python integers [batch_size] and [num_iterations] must fit the
    array's 32-bit type (the call raises otherwise), and each product
    is taken in that type. *)
Definition plot_steps (batch_size num_iterations : Z) : option (list Z) :=
  if in_int32 batch_size && in_int32 num_iterations
  then Some (map (fun i => wrap_int32 (batch_size * i))
                 (arange 0 num_iterations))
  else None.

(* ================================================================== *)
(** ** More concrete inputs *)
(* ================================================================== *)

(** A toy environment: the state tree has one leaf, the numbers from
    the key on, one per batch entry. *)
Definition toy_create (_ : unit) (batch_size : nat) (_ : Z) (_ : bool) : nat :=
  batch_size.
Definition toy_reset (env : nat) (key : nat) : list (list nat) :=
  [seq key env].

(** A toy play step: the environment state counts steps and the
    training state accumulates them. *)
Definition toy_play_step (e ts : nat) : nat * nat * unit :=
  (S e, (ts + e)%nat, tt).

(** A scanned update that counts iterations and reports the count. *)
Definition toy_scan_update (c : nat * nat * nat) (_ : unit)
  : (nat * nat * nat) * nat :=
  let '(r, e, k) := c in ((S r, e, k), r).

(* ================================================================== *)
(** ** Theorems *)
(* ================================================================== *)

Lemma replacement_invariant_spec (c : PBT) :
  replacement_invariant c = true <->
  (0 <= num_best_to_replace_from c <= population_size c
   /\ 0 <= num_worse_to_replace c <= population_size c
   /\ num_best_to_replace_from c + num_worse_to_replace c <= population_size c)%Z.
Proof.
  unfold replacement_invariant.
  rewrite !andb_true_iff, !Z.leb_le. lia.
Qed.

Lemma div_floor (a n : Z) :
  (0 < n -> n * (a / n) <= a < n * (a / n) + n)%Z.
Proof.
  intros Hn.
  pose proof (Z.div_mod a n ltac:(lia)).
  pose proof (Z.mod_pos_bound a n Hn). lia.
Qed.

Lemma sac_counts_large (n : Z) :
  (3 <= n -> 0 <= 20 / n <= 6 /\ 0 <= 40 / n <= 13)%Z.
Proof.
  intros Hn.
  assert (20 / n <= 20 / 3)%Z by (apply Z.div_le_compat_l; lia).
  assert (40 / n <= 40 / 3)%Z by (apply Z.div_le_compat_l; lia).
  assert (0 <= 20 / n)%Z by (apply Z.div_pos; lia).
  assert (0 <= 40 / n)%Z by (apply Z.div_pos; lia).
  change (20 / 3)%Z with 6%Z in *. change (40 / 3)%Z with 13%Z in *. lia.
Qed.

(** C1, as stated, fails: on a single device the SAC-PBT notebook
    builds [PBT(population_size=10, num_best_to_replace_from=20,
    num_worse_to_replace=40)], which breaks every bound of the
    ReplacementSpec invariant and is an [InvalidConfig]. *)
Lemma C1_sac_single_device_violates :
  (0 < 1)%Z
  /\ sac_pbt 1 = mkPBT 10 20 40
  /\ replacement_invariant (sac_pbt 1) = false
  /\ check_config (sac_pbt 1) = Some InvalidConfig.
Proof. repeat split; try reflexivity. Qed.

(** C1 (amended): for every positive device count the TD3-PBT
    notebook builds a configuration satisfying the ReplacementSpec
    invariant; the SAC-PBT notebook does so exactly when there are at
    least three devices; and any configuration with
    [K_best + K_worse > population_size] is an [InvalidConfig]. *)
Theorem C1_notebook_configs_invariant (num_devices : Z) :
  (0 < num_devices)%Z ->
  replacement_invariant (td3_pbt num_devices) = true
  /\ (replacement_invariant (sac_pbt num_devices) = true <-> (3 <= num_devices)%Z)
  /\ (forall c : PBT,
        (population_size c < num_best_to_replace_from c + num_worse_to_replace c)%Z ->
        check_config c = Some InvalidConfig).
Proof.
  intros Hn. split; [| split].
  - apply replacement_invariant_spec. cbn.
    destruct (Z.eq_dec num_devices 1%Z) as [-> | Hne].
    + rewrite Z.div_1_r. lia.
    + rewrite Z.div_small by lia. lia.
  - rewrite replacement_invariant_spec. cbn. split.
    + intros (Hb & Hw & Hsum).
      destruct (Z_lt_le_dec num_devices 3%Z) as [Hlt | Hge]; [| exact Hge].
      assert (num_devices = 1 \/ num_devices = 2)%Z as [-> | ->] by lia;
        vm_compute in Hsum; contradiction.
    + intros Hge. pose proof (sac_counts_large num_devices Hge). lia.
  - intros c Hc. unfold check_config.
    apply Z.ltb_lt in Hc. rewrite Hc, orb_true_r. reflexivity.
Qed.

Lemma C1_notebook_configs_invariant_witness :
  replacement_invariant (td3_pbt 8) = true
  /\ (replacement_invariant (sac_pbt 8) = true <-> (3 <= 8)%Z)
  /\ (forall c : PBT,
        (population_size c < num_best_to_replace_from c + num_worse_to_replace c)%Z ->
        check_config c = Some InvalidConfig).
Proof. apply (C1_notebook_configs_invariant 8%Z). lia. Defined.

(** C4: in both PBT notebooks the counts handed to the selector are the
    global [num_best_to_replace_from] and [num_worse_to_replace]
    floor-divided by [num_devices]; the cell always builds the selector,
    and a remainder is dropped (the product of the quotient and the
    device count falls short of the global count exactly when the
    division is not exact). *)
Theorem C4_counts_floor_divided (h : Hyper) (num_devices : Z) :
  (0 < num_devices)%Z ->
  num_best_to_replace_from (pbt_cell h num_devices)
    = (global_num_best_to_replace_from h / num_devices)%Z
  /\ num_worse_to_replace (pbt_cell h num_devices)
    = (global_num_worse_to_replace h / num_devices)%Z
  /\ (num_devices * num_best_to_replace_from (pbt_cell h num_devices)
        <= global_num_best_to_replace_from h
        < num_devices * num_best_to_replace_from (pbt_cell h num_devices)
          + num_devices)%Z
  /\ (num_devices * num_worse_to_replace (pbt_cell h num_devices)
        <= global_num_worse_to_replace h
        < num_devices * num_worse_to_replace (pbt_cell h num_devices)
          + num_devices)%Z
  /\ ((global_num_best_to_replace_from h mod num_devices)%Z <> 0%Z ->
      (num_devices * num_best_to_replace_from (pbt_cell h num_devices)
        < global_num_best_to_replace_from h)%Z)
  /\ ((global_num_worse_to_replace h mod num_devices)%Z <> 0%Z ->
      (num_devices * num_worse_to_replace (pbt_cell h num_devices)
        < global_num_worse_to_replace h)%Z).
Proof.
  intros Hn. destruct h as [p kb kw]. cbn.
  pose proof (div_floor kb num_devices Hn).
  pose proof (div_floor kw num_devices Hn).
  pose proof (Z.div_mod kb num_devices ltac:(lia)).
  pose proof (Z.div_mod kw num_devices ltac:(lia)).
  pose proof (Z.mod_pos_bound kb num_devices Hn).
  pose proof (Z.mod_pos_bound kw num_devices Hn).
  repeat split; try reflexivity; lia.
Qed.

Lemma C4_counts_floor_divided_witness :
  sac_pbt 3 = mkPBT 30 6 13
  /\ (3 * num_best_to_replace_from (sac_pbt 3) < 20)%Z
  /\ (3 * num_worse_to_replace (sac_pbt 3) < 40)%Z.
Proof.
  pose proof (C4_counts_floor_divided sac_hyper 3%Z ltac:(lia)) as H.
  destruct H as (_ & _ & _ & _ & Hb & Hw).
  split; [reflexivity |].
  split; [apply Hb | apply Hw]; vm_compute; discriminate.
Defined.

(* ------------------------------------------------------------------ *)
(** *** The outer training loop *)
(* ------------------------------------------------------------------ *)

Lemma range_snoc (k : nat) :
  range (Z.of_nat (S k)) = range (Z.of_nat k) ++ [Z.of_nat k].
Proof.
  unfold range. rewrite !Nat2Z.id, seq_S, map_app. reflexivity.
Qed.

Lemma range_bounds (n i : Z) : i ∈ range n -> (0 <= i < n)%Z.
Proof.
  unfold range. intros Hin.
  apply list_elem_of_fmap in Hin as (k & -> & Hk).
  apply list_elem_of_In, in_seq in Hk. lia.
Qed.

Lemma range_split (n i : Z) :
  (0 <= i < n)%Z ->
  exists rest, range n = range i ++ i :: rest
               /\ Forall (fun j => (i < j)%Z) rest.
Proof.
  intros Hi. unfold range.
  replace (Z.to_nat n) with (Z.to_nat i + S (Z.to_nat n - Z.to_nat i - 1))%nat by lia.
  rewrite seq_app, map_app. cbn [seq map Nat.add].
  rewrite Z2Nat.id by lia.
  eexists. split; [reflexivity |].
  apply Forall_forall. intros j Hj.
  apply list_elem_of_fmap in Hj as (k & -> & Hk).
  apply list_elem_of_In, in_seq in Hk. lia.
Qed.

Lemma count_below_range (k : nat) (m : Z) :
  length (List.filter (fun i => (i <? m)%Z) (range (Z.of_nat k)))
  = Z.to_nat (Z.min m (Z.of_nat k)).
Proof.
  induction k as [| k IH].
  - change (range (Z.of_nat 0)) with (@nil Z). cbn [List.filter length]. lia.
  - rewrite range_snoc, List.filter_app, length_app, IH. cbn [List.filter].
    destruct (Z.ltb_spec (Z.of_nat k) m); cbn [length]; lia.
Qed.

Section OuterLoopFacts.
Context {TrainingStates EnvStates ReplayBuffers Keys Metrics : Type}.
Context {EvalStates Returns : Type}.
Variable train_fn :
  TrainingStates -> EnvStates -> ReplayBuffers ->
  (TrainingStates * EnvStates * ReplayBuffers) * Metrics.
Variable eval_policy : TrainingStates -> EvalStates -> Returns * Metrics.
Variable select_fn :
  Keys -> Returns -> TrainingStates -> ReplayBuffers ->
  Keys * TrainingStates * ReplayBuffers.
Variable reshape_returns : Returns -> Returns.

Abbreviation G := (Globals TrainingStates EnvStates ReplayBuffers Keys Metrics
                       EvalStates Returns).
Abbreviation C := (Call TrainingStates EnvStates ReplayBuffers Keys
                    EvalStates Returns).
Abbreviation body := (loop_body train_fn eval_policy select_fn reshape_returns).
Abbreviation each := (for_each train_fn eval_policy select_fn reshape_returns).
Abbreviation loop := (outer_loop train_fn eval_policy select_fn reshape_returns).
Abbreviation before := (globals_before train_fn eval_policy select_fn reshape_returns).
Abbreviation iteration_calls := (iteration_calls train_fn eval_policy reshape_returns).

Lemma loop_body_calls (num_loops i : Z) (g : G) :
  snd (body num_loops i g) = iteration_calls num_loops i g.
Proof.
  unfold loop_body, iteration_calls.
  destruct (train_fn _ _ _) as [[[ts es] rb] m].
  destruct (eval_policy _ _) as [ret u]. cbn [fst].
  unfold print_freq. rewrite Z.mod_1_r. cbn [Z.eqb].
  destruct (i <? num_loops - 1)%Z.
  - destruct (select_fn _ _ _ _) as [[k' ts'] rb']. reflexivity.
  - reflexivity.
Qed.

Lemma loop_body_first_states (num_loops i : Z) (g : G) :
  eval_env_first_states (fst (body num_loops i g)) = eval_env_first_states g.
Proof.
  unfold loop_body.
  destruct (train_fn _ _ _) as [[[ts es] rb] m].
  destruct (eval_policy _ _) as [ret u].
  destruct (i <? num_loops - 1)%Z.
  - destruct (select_fn _ _ _ _) as [[k' ts'] rb']. reflexivity.
  - reflexivity.
Qed.

Lemma iteration_calls_tagged (num_loops i : Z) (g : G) :
  Forall (fun c => call_iteration c = i) (iteration_calls num_loops i g).
Proof.
  unfold iteration_calls.
  destruct (train_fn _ _ _) as [[[ts es] rb] m].
  destruct (i <? num_loops - 1)%Z; repeat constructor.
Qed.

Lemma for_each_cons (num_loops i : Z) (l : list Z) (g : G) :
  each num_loops (i :: l) g
  = (fst (each num_loops l (fst (body num_loops i g))),
     snd (body num_loops i g) ++ snd (each num_loops l (fst (body num_loops i g)))).
Proof.
  cbn [for_each]. destruct (body num_loops i g) as [g1 c1]. cbn [fst snd].
  destruct (each num_loops l g1) as [g2 c2]. reflexivity.
Qed.

Lemma for_each_app (num_loops : Z) (l1 l2 : list Z) (g : G) :
  each num_loops (l1 ++ l2) g
  = (fst (each num_loops l2 (fst (each num_loops l1 g))),
     snd (each num_loops l1 g) ++ snd (each num_loops l2 (fst (each num_loops l1 g)))).
Proof.
  revert g. induction l1 as [| i l1 IH]; intros g.
  - cbn. destruct (each num_loops l2 g). reflexivity.
  - rewrite <- app_comm_cons, !for_each_cons, IH. cbn [fst snd].
    rewrite app_assoc. reflexivity.
Qed.

Lemma for_each_first_states (num_loops : Z) (l : list Z) (g : G) :
  eval_env_first_states (fst (each num_loops l g)) = eval_env_first_states g.
Proof.
  revert g. induction l as [| i l IH]; intros g; [reflexivity |].
  rewrite for_each_cons. cbn [fst]. rewrite IH. apply loop_body_first_states.
Qed.

Lemma for_each_tagged (num_loops : Z) (l : list Z) (g : G) :
  Forall (fun c => call_iteration c ∈ l) (snd (each num_loops l g)).
Proof.
  revert g. induction l as [| i l IH]; intros g; [constructor |].
  rewrite for_each_cons. cbn [snd]. apply Forall_app. split.
  - rewrite loop_body_calls.
    eapply Forall_impl; [apply iteration_calls_tagged |].
    intros c Hc. cbv beta in Hc |- *. rewrite Hc. left.
  - eapply Forall_impl; [apply IH |]. intros c Hc. right. exact Hc.
Qed.

Lemma filter_none (p : C -> bool) (l : list C) :
  Forall (fun c => p c = false) l -> List.filter p l = [].
Proof.
  induction 1 as [| c l Hc _ IH]; [reflexivity |].
  cbn. rewrite Hc. exact IH.
Qed.

Lemma filter_all (p : C -> bool) (l : list C) :
  Forall (fun c => p c = true) l -> List.filter p l = l.
Proof.
  induction 1 as [| c l Hc _ IH]; [reflexivity |].
  cbn. rewrite Hc, IH. reflexivity.
Qed.

Lemma for_each_filter_other (num_loops i : Z) (l : list Z) (g : G) :
  i ∉ l ->
  List.filter (fun c => (call_iteration c =? i)%Z) (snd (each num_loops l g)) = [].
Proof.
  intros Hi. apply filter_none.
  eapply Forall_impl; [apply for_each_tagged |].
  intros c Hc. cbv beta in Hc |- *. apply Z.eqb_neq. intros Heq.
  rewrite Heq in Hc. contradiction.
Qed.

(** The calls tagged [i] in the whole run are those of iteration [i]. *)
Lemma outer_loop_iteration (num_loops i : Z) (g0 : G) :
  (0 <= i < num_loops)%Z ->
  List.filter (fun c => (call_iteration c =? i)%Z) (snd (loop num_loops g0))
  = iteration_calls num_loops i (before num_loops i g0).
Proof.
  intros Hi. unfold outer_loop, globals_before.
  destruct (range_split num_loops i Hi) as (rest & -> & Hrest).
  rewrite for_each_app. cbn [snd]. rewrite for_each_cons. cbn [snd].
  rewrite !List.filter_app.
  rewrite for_each_filter_other, for_each_filter_other.
  - rewrite app_nil_r. cbn [app]. rewrite loop_body_calls.
    apply filter_all.
    eapply Forall_impl; [apply iteration_calls_tagged |].
    intros c Hc. cbv beta in Hc |- *. rewrite Hc. apply Z.eqb_refl.
  - intros Hin. rewrite Forall_forall in Hrest. apply Hrest in Hin. lia.
  - intros Hin. apply range_bounds in Hin. lia.
Qed.

Lemma iteration_calls_counts (num_loops i : Z) (g : G) :
  length (List.filter is_train (iteration_calls num_loops i g)) = 1%nat
  /\ length (List.filter is_eval (iteration_calls num_loops i g)) = 1%nat
  /\ length (List.filter is_select (iteration_calls num_loops i g))
     = (if (i <? num_loops - 1)%Z then 1%nat else 0%nat).
Proof.
  unfold iteration_calls.
  destruct (train_fn _ _ _) as [[[ts es] rb] m].
  destruct (i <? num_loops - 1)%Z; repeat split.
Qed.

Lemma for_each_counts (num_loops : Z) (l : list Z) (g : G) :
  length (List.filter is_train (snd (each num_loops l g))) = length l
  /\ length (List.filter is_eval (snd (each num_loops l g))) = length l
  /\ length (List.filter is_select (snd (each num_loops l g)))
     = length (List.filter (fun i => (i <? num_loops - 1)%Z) l).
Proof.
  revert g. induction l as [| i l IH]; intros g; [repeat split |].
  rewrite for_each_cons. cbn [snd].
  rewrite !List.filter_app, !length_app, loop_body_calls.
  destruct (iteration_calls_counts num_loops i g) as (-> & -> & ->).
  destruct (IH (fst (body num_loops i g))) as (-> & -> & ->).
  cbn [List.filter]. destruct (i <? num_loops - 1)%Z; repeat split.
Qed.

Lemma outer_loop_counts (num_loops : Z) (g0 : G) :
  length (List.filter is_train (snd (loop num_loops g0))) = Z.to_nat num_loops
  /\ length (List.filter is_eval (snd (loop num_loops g0))) = Z.to_nat num_loops
  /\ length (List.filter is_select (snd (loop num_loops g0)))
     = Z.to_nat (num_loops - 1).
Proof.
  unfold outer_loop.
  destruct (for_each_counts num_loops (range num_loops) g0) as (-> & -> & ->).
  assert (length (range num_loops) = Z.to_nat num_loops) as ->.
  { unfold range. rewrite length_map, length_seq. reflexivity. }
  repeat split.
  unfold range at 1.
  rewrite <- (Nat2Z.id (Z.to_nat num_loops)) at 1.
  fold (range (Z.of_nat (Z.to_nat num_loops))).
  rewrite count_below_range. lia.
Qed.

Lemma for_each_evals (num_loops : Z) (l : list Z) (g : G) :
  Forall (fun c => match c with
                   | CallEval _ _ fs => fs = eval_env_first_states g
                   | _ => True
                   end) (snd (each num_loops l g)).
Proof.
  revert g. induction l as [| i l IH]; intros g; [constructor |].
  rewrite for_each_cons. cbn [snd]. apply Forall_app. split.
  - rewrite loop_body_calls. unfold iteration_calls.
    destruct (train_fn _ _ _) as [[[ts es] rb] m].
    destruct (i <? num_loops - 1)%Z; repeat constructor.
  - specialize (IH (fst (body num_loops i g))).
    rewrite loop_body_first_states in IH. exact IH.
Qed.
End OuterLoopFacts.

(* ------------------------------------------------------------------ *)
(** *** The CMA-ES loop and the scanned loops *)
(* ------------------------------------------------------------------ *)

Section CmaesFacts.
Context {State RNGKey Samples Mean Cov : Type}.
Variable sample : State -> RNGKey -> Samples * RNGKey.
Variable update : State -> Samples -> State.
Variable stop_condition : State -> bool.
Variable state_mean : State -> Mean.
Variable scaled_cov : State -> Cov.

Abbreviation run_for := (cmaes_for sample update stop_condition state_mean scaled_cov).
Abbreviation after := (state_after sample update).

Lemma state_after_succ (k : nat) (st : State) (key : RNGKey) :
  after (S k) st key
  = after k (fst (cmaes_round sample update st key))
            (snd (cmaes_round sample update st key)).
Proof.
  unfold state_after. cbn [cmaes_trajectory].
  destruct (cmaes_round sample update st key). reflexivity.
Qed.

Lemma cmaes_for_upper (fuel : nat) (v : CmaesVars) :
  (iteration_count v <= iteration_count (run_for fuel v)
   <= iteration_count v + Z.of_nat fuel)%Z.
Proof.
  revert v. induction fuel as [| fuel IH]; intros v.
  - cbn. lia.
  - cbn [cmaes_for]. destruct (sample _ _) as [smp key].
    destruct (stop_condition _).
    + cbn [iteration_count]. lia.
    + match goal with |- context [run_for fuel ?w] => specialize (IH w) end.
      cbn [iteration_count] in IH. lia.
Qed.

Lemma cmaes_for_no_stop (fuel : nat) (v : CmaesVars) :
  (forall k, (1 <= k <= fuel)%nat ->
             stop_condition (after k (state v) (random_key v)) = false) ->
  iteration_count (run_for fuel v) = (iteration_count v + Z.of_nat fuel)%Z.
Proof.
  revert v. induction fuel as [| fuel IH]; intros v Hno.
  - cbn. lia.
  - pose proof (Hno 1%nat ltac:(lia)) as H1.
    assert (forall k, (1 <= k <= fuel)%nat ->
              stop_condition
                (after k (fst (cmaes_round sample update (state v) (random_key v)))
                         (snd (cmaes_round sample update (state v) (random_key v))))
              = false) as Hrest.
    { intros k Hk. rewrite <- state_after_succ. apply Hno. lia. }
    rewrite state_after_succ in H1. unfold state_after in H1.
    cbn [cmaes_trajectory fst] in H1.
    cbn [cmaes_for]. unfold cmaes_round in *.
    destruct (sample _ _) as [smp key]. cbn [fst snd] in *.
    rewrite H1.
    match goal with |- context [run_for fuel ?w] => rewrite (IH w) end.
    + cbn [iteration_count]. lia.
    + cbn [state random_key]. exact Hrest.
Qed.

Lemma cmaes_for_first_stop (fuel k : nat) (v : CmaesVars) :
  (1 <= k <= fuel)%nat ->
  stop_condition (after k (state v) (random_key v)) = true ->
  (forall j, (1 <= j < k)%nat ->
             stop_condition (after j (state v) (random_key v)) = false) ->
  iteration_count (run_for fuel v) = (iteration_count v + Z.of_nat k)%Z.
Proof.
  revert k v. induction fuel as [| fuel IH]; intros k v Hk Hstop Hbefore.
  - lia.
  - destruct k as [| k]; [lia |].
    rewrite state_after_succ in Hstop.
    assert (forall j, (1 <= j < k)%nat ->
              stop_condition
                (after j (fst (cmaes_round sample update (state v) (random_key v)))
                         (snd (cmaes_round sample update (state v) (random_key v))))
              = false) as Hrest.
    { intros j Hj. rewrite <- state_after_succ. apply Hbefore. lia. }
    destruct k as [| k].
    + unfold state_after in Hstop. cbn [cmaes_trajectory fst] in Hstop.
      cbn [cmaes_for]. unfold cmaes_round in *.
      destruct (sample _ _) as [smp key]. cbn [fst snd] in *.
      rewrite Hstop. cbn [iteration_count]. lia.
    + pose proof (Hbefore 1%nat ltac:(lia)) as H1.
      rewrite state_after_succ in H1. unfold state_after in H1.
      cbn [cmaes_trajectory fst] in H1.
      cbn [cmaes_for]. unfold cmaes_round in *.
      destruct (sample _ _) as [smp key]. cbn [fst snd] in *.
      rewrite H1.
      match goal with |- context [run_for fuel ?w] =>
        rewrite (IH (S k) w) end.
      * cbn [iteration_count]. lia.
      * lia.
      * cbn [state random_key]. exact Hstop.
      * cbn [state random_key]. intros j Hj. apply Hrest. lia.
Qed.
End CmaesFacts.

Lemma scan_length {Carry Y : Type} (f : Carry -> unit -> Carry * Y)
    (init : Carry) (n : nat) :
  length (snd (scan f init n)) = n.
Proof.
  revert init. induction n as [| n IH]; intros init; [reflexivity |].
  cbn [scan]. destruct (f init tt) as [c y].
  specialize (IH c). destruct (scan f c n) as [c' ys].
  cbn [snd length] in *. congruence.
Qed.

Lemma scan_final_carry {Carry Y : Type} (f : Carry -> unit -> Carry * Y)
    (init : Carry) (n : nat) :
  fst (scan f init n) = scan_carry f init n.
Proof.
  revert init. induction n as [| n IH]; intros init; [reflexivity |].
  cbn [scan scan_carry]. destruct (f init tt) as [c y].
  specialize (IH c). destruct (scan f c n) as [c' ys].
  cbn [fst] in *. exact IH.
Qed.

(** C2, as stated, fails: with [num_loops = 10] as configured, the last
    iteration ([i = 9]) trains and evaluates but makes no call to
    [select_fn]; the run makes nine selection calls, not ten. *)
Lemma C2_last_iteration_skips_selection :
  let log := snd (counting_loop 10) in
  List.filter (fun c => (call_iteration c =? 9)%Z) log
    = [CallTrain 9%Z 9 0 0; CallEval 9%Z 10 7; CallPrint 9%Z 17]
  /\ length (List.filter is_select log) = 9%nat
  /\ keys (fst (counting_loop 10)) = 9%nat.
Proof. vm_compute. repeat split. Qed.

(** C2 (amended): in the outer training loop of the PBT notebooks every
    iteration [i] calls [train_fn], then [eval_policy] on the freshly
    trained states, then prints, and then - only when [i < num_loops - 1]
    - calls [select_fn] exactly once, on the returns and states produced
    by that iteration's training and evaluation; the last iteration makes
    no selection call, so a run makes [num_loops - 1] of them. *)
Theorem C2_selection_after_train_eval_except_last
    {TrainingStates EnvStates ReplayBuffers Keys Metrics EvalStates Returns : Type}
    (train_fn : TrainingStates -> EnvStates -> ReplayBuffers ->
                (TrainingStates * EnvStates * ReplayBuffers) * Metrics)
    (eval_policy : TrainingStates -> EvalStates -> Returns * Metrics)
    (select_fn : Keys -> Returns -> TrainingStates -> ReplayBuffers ->
                 Keys * TrainingStates * ReplayBuffers)
    (reshape_returns : Returns -> Returns)
    (num_loops i : Z)
    (g0 : Globals TrainingStates EnvStates ReplayBuffers Keys Metrics
                  EvalStates Returns)
    ts es rb m ret u :
  (0 <= i < num_loops)%Z ->
  let g := globals_before train_fn eval_policy select_fn reshape_returns
                          num_loops i g0 in
  let log := snd (outer_loop train_fn eval_policy select_fn reshape_returns
                             num_loops g0) in
  train_fn (training_states g) (env_states g) (replay_buffers g)
    = ((ts, es, rb), m) ->
  eval_policy ts (eval_env_first_states g) = (ret, u) ->
  List.filter (fun c => (call_iteration c =? i)%Z) log
    = CallTrain i (training_states g) (env_states g) (replay_buffers g)
      :: CallEval i ts (eval_env_first_states g)
      :: CallPrint i (reshape_returns ret)
      :: (if (i <? num_loops - 1)%Z
          then [CallSelect i (keys g) ret ts rb] else [])
  /\ length (List.filter is_select log) = Z.to_nat (num_loops - 1).
Proof.
  intros Hi g log Htrain Heval. split.
  - subst log. rewrite outer_loop_iteration by exact Hi.
    fold g. unfold iteration_calls. rewrite Htrain, Heval. reflexivity.
  - apply outer_loop_counts.
Qed.

Lemma C2_selection_after_train_eval_except_last_witness :
  List.filter (fun c => (call_iteration c =? 3)%Z) (snd (counting_loop 10))
    = [CallTrain 3%Z 3 0 0; CallEval 3%Z 4 7; CallPrint 3%Z 11;
       CallSelect 3%Z 3 11 4 0]
  /\ length (List.filter is_select (snd (counting_loop 10))) = Z.to_nat (10 - 1).
Proof.
  apply (C2_selection_after_train_eval_except_last
           counting_train counting_eval counting_select id 10%Z 3%Z
           counting_globals 4 0 0 tt 11 tt).
  - lia.
  - reflexivity.
  - reflexivity.
Defined.

(** C10: [eval_env_first_states] is an invariant of the outer training
    loop: no iteration rebinds it, so the globals at the start of every
    iteration and after the loop hold the value bound before the loop,
    and every call of [eval_policy] - one per iteration - receives that
    same value. *)
Theorem C10_eval_first_states_invariant
    {TrainingStates EnvStates ReplayBuffers Keys Metrics EvalStates Returns : Type}
    (train_fn : TrainingStates -> EnvStates -> ReplayBuffers ->
                (TrainingStates * EnvStates * ReplayBuffers) * Metrics)
    (eval_policy : TrainingStates -> EvalStates -> Returns * Metrics)
    (select_fn : Keys -> Returns -> TrainingStates -> ReplayBuffers ->
                 Keys * TrainingStates * ReplayBuffers)
    (reshape_returns : Returns -> Returns)
    (num_loops : Z)
    (g0 : Globals TrainingStates EnvStates ReplayBuffers Keys Metrics
                  EvalStates Returns) :
  let run := outer_loop train_fn eval_policy select_fn reshape_returns
                        num_loops g0 in
  eval_env_first_states (fst run) = eval_env_first_states g0
  /\ (forall i : Z,
        eval_env_first_states
          (globals_before train_fn eval_policy select_fn reshape_returns
                          num_loops i g0)
        = eval_env_first_states g0)
  /\ Forall (fun c => match c with
                      | CallEval _ _ first_states =>
                          first_states = eval_env_first_states g0
                      | _ => True
                      end) (snd run)
  /\ length (List.filter is_eval (snd run)) = Z.to_nat num_loops.
Proof.
  cbv zeta. split; [| split; [| split]].
  - apply for_each_first_states.
  - intros i. apply for_each_first_states.
  - apply for_each_evals.
  - apply outer_loop_counts.
Qed.

(** C3, as stated, fails: the CMA-ES loop leaves through [break] as soon
    as the optimiser's stop condition holds.  With an optimiser whose
    stop condition fires after its third update, the loop configured
    with [num_iterations = 1000] runs its body three times. *)
Lemma C3_cmaes_loop_breaks_early :
  iteration_count (toy_cmaes 1000) = 3%Z
  /\ state (toy_cmaes 1000) = 3%nat
  /\ length (means (toy_cmaes 1000)) = 3%nat.
Proof. vm_compute. repeat split. Qed.

(** C3 (amended): the scanned loops (MOME, NSGA2, SPEA2) apply
    [scan_update] exactly [num_iterations] times and the PBT outer loops
    run their body exactly [num_loops] times (none for a non-positive
    count); the CMA-ES loop runs its body at most [num_iterations] times:
    exactly [num_iterations] times when the stop condition never holds on
    the way, and exactly [k] times when round [k] is the first after
    which the stop condition holds. *)
Theorem C3_loop_lengths
    {Repertoire EmitterState Key Metrics : Type}
    {TrainingStates EnvStates ReplayBuffers Keys EvalStates Returns : Type}
    {State RNGKey Samples Mean Cov : Type}
    (scan_update : Repertoire * EmitterState * Key -> unit ->
                   (Repertoire * EmitterState * Key) * Metrics)
    (train_fn : TrainingStates -> EnvStates -> ReplayBuffers ->
                (TrainingStates * EnvStates * ReplayBuffers) * Metrics)
    (eval_policy : TrainingStates -> EvalStates -> Returns * Metrics)
    (select_fn : Keys -> Returns -> TrainingStates -> ReplayBuffers ->
                 Keys * TrainingStates * ReplayBuffers)
    (reshape_returns : Returns -> Returns)
    (sample : State -> RNGKey -> Samples * RNGKey)
    (update : State -> Samples -> State)
    (stop_condition : State -> bool)
    (state_mean : State -> Mean) (scaled_cov : State -> Cov) :
  (forall (num_iterations : nat) repertoire emitter_state random_key,
      let r := run_scan_cell scan_update num_iterations
                             repertoire emitter_state random_key in
      length (snd r) = num_iterations
      /\ fst r = scan_carry scan_update
                            (repertoire, emitter_state, random_key)
                            num_iterations)
  /\ (forall (num_loops : Z) g0,
        length (List.filter is_train
                  (snd (outer_loop train_fn eval_policy select_fn
                                   reshape_returns num_loops g0)))
        = Z.to_nat num_loops)
  /\ (forall (num_iterations : Z) st key,
        let count := iteration_count
                       (cmaes_loop sample update stop_condition
                                   state_mean scaled_cov num_iterations st key) in
        (0 <= count <= Z.max 0 num_iterations)%Z
        /\ ((forall k, (1 <= k <= Z.to_nat num_iterations)%nat ->
                       stop_condition (state_after sample update k st key) = false) ->
            count = Z.max 0 num_iterations)
        /\ (forall k, (1 <= k <= Z.to_nat num_iterations)%nat ->
                      stop_condition (state_after sample update k st key) = true ->
                      (forall j, (1 <= j < k)%nat ->
                                 stop_condition (state_after sample update j st key)
                                 = false) ->
                      count = Z.of_nat k)).
Proof.
  split; [| split].
  - intros n rep em key. cbv zeta. unfold run_scan_cell.
    split; [apply scan_length | apply scan_final_carry].
  - intros n g0. apply outer_loop_counts.
  - intros n st key. cbv zeta. unfold cmaes_loop. split; [| split].
    + pose proof (cmaes_for_upper sample update stop_condition state_mean
                    scaled_cov (Z.to_nat n) (cmaes_init state_mean scaled_cov st key)) as H.
      cbn [cmaes_init iteration_count] in H. lia.
    + intros Hno.
      rewrite cmaes_for_no_stop by exact Hno.
      cbn [cmaes_init iteration_count]. lia.
    + intros k Hk Hstop Hbefore.
      rewrite (cmaes_for_first_stop _ _ _ _ _ _ k) by assumption.
      cbn [cmaes_init iteration_count]. lia.
Qed.

(* ------------------------------------------------------------------ *)
(** *** Unsharding *)
(* ------------------------------------------------------------------ *)

Section UnshardFacts.
Context {A : Type}.
Implicit Types (x : list (list A)) (row : list A).

Lemma concat_length_rows (per_device : nat) x :
  Forall (fun row => length row = per_device) x ->
  length (concat x) = (length x * per_device)%nat.
Proof.
  induction 1 as [| row x Hrow _ IH]; [reflexivity |].
  cbn [concat length]. rewrite length_app, IH, Hrow. lia.
Qed.

Lemma concat_lookup_rows (per_device : nat) x (d j : nat) :
  Forall (fun row => length row = per_device) x ->
  (j < per_device)%nat ->
  concat x !! (d * per_device + j)%nat = at_device_slot x d j.
Proof.
  intros Hrows Hj. revert d.
  induction Hrows as [| row x Hrow _ IH]; intros d.
  - unfold at_device_slot. cbn. rewrite !lookup_nil. reflexivity.
  - cbn [concat]. destruct d as [| d].
    + cbn [Nat.mul Nat.add]. rewrite lookup_app_l by lia. reflexivity.
    + rewrite lookup_app_r by lia.
      replace (S d * per_device + j - length row)%nat
        with (d * per_device + j)%nat by lia.
      rewrite IH. reflexivity.
Qed.

Lemma at_device_slot_elem x (d j : nat) (a : A) :
  at_device_slot x d j = Some a -> a ∈ concat x.
Proof.
  unfold at_device_slot. intros H.
  destruct (x !! d) as [row |] eqn:Hd; [| discriminate].
  cbn in H. apply list_elem_of_In, in_concat. exists row. split.
  - apply list_elem_of_In. eapply list_elem_of_lookup_2. exact Hd.
  - apply list_elem_of_In. eapply list_elem_of_lookup_2. exact H.
Qed.

Lemma reshape_leaf_shape (num_devices per_device : nat) x :
  has_shape num_devices per_device x ->
  reshape_leaf (per_device * num_devices) x = Some (concat x).
Proof.
  intros [Hlen Hrows]. unfold reshape_leaf.
  rewrite (concat_length_rows per_device) by exact Hrows.
  rewrite Hlen, (Nat.mul_comm num_devices).
  rewrite Nat.eqb_refl. reflexivity.
Qed.

Lemma unshard_fn_shape (num_devices per_device : nat)
    (sharded_tree : list (list (list A))) :
  Forall (has_shape num_devices per_device) sharded_tree ->
  unshard_fn (per_device * num_devices) sharded_tree
  = Some (map (@concat A) sharded_tree).
Proof.
  intros Hall. unfold unshard_fn. apply mapM_Some_2.
  induction Hall as [| x t Hx _ IH]; constructor.
  - apply reshape_leaf_shape. exact Hx.
  - exact IH.
Qed.
End UnshardFacts.

Lemma argmax_from_spec (l : list Q) (best_i : nat) (best : Q) (i : nat) :
  exists v : Q,
    ((argmax_from best_i best i l = best_i /\ v = best)
     \/ ((i <= argmax_from best_i best i l)%nat
         /\ l !! (argmax_from best_i best i l - i)%nat = Some v))
    /\ (best <= v)%Q
    /\ Forall (fun x => (x <= v)%Q) l.
Proof.
  revert best_i best i. induction l as [| x l IH]; intros best_i best i.
  - exists best. cbn. split; [left; split; reflexivity |].
    split; [apply Qle_refl | constructor].
  - cbn [argmax_from]. destruct (Qlt_le_dec best x) as [Hlt | Hle].
    + destruct (IH i x (S i)) as (v & Hk & Hxv & Hall).
      exists v. split; [right | split].
      * destruct Hk as [[-> ->] | [Hge Hlook]].
        -- split; [lia |]. rewrite Nat.sub_diag. reflexivity.
        -- split; [lia |].
           replace (argmax_from i x (S i) l - i)%nat
             with (S (argmax_from i x (S i) l - S i)) by lia.
           exact Hlook.
      * apply Qlt_le_weak. eapply Qlt_le_trans; eassumption.
      * constructor; assumption.
    + destruct (IH best_i best (S i)) as (v & Hk & Hbv & Hall).
      exists v. split; [| split].
      * destruct Hk as [[Heq ->] | [Hge Hlook]].
        -- left. split; [exact Heq | reflexivity].
        -- right. split; [lia |].
           replace (argmax_from best_i best (S i) l - i)%nat
             with (S (argmax_from best_i best (S i) l - S i)) by lia.
           exact Hlook.
      * exact Hbv.
      * constructor; [eapply Qle_trans; eassumption | exact Hall].
Qed.

Lemma argmax_spec (l : list Q) (k : nat) :
  argmax l = Some k ->
  exists v : Q, l !! k = Some v /\ Forall (fun x => (x <= v)%Q) l.
Proof.
  destruct l as [| x l]; [discriminate |].
  cbn [argmax]. intros [= <-].
  destruct (argmax_from_spec l 0 x 1) as (v & Hk & Hxv & Hall).
  exists v. split.
  - destruct Hk as [[-> ->] | [Hge Hlook]]; [reflexivity |].
    destruct (argmax_from 0 x 1 l) as [| k']; [lia |].
    replace (S k' - 1)%nat with k' in Hlook by lia. exact Hlook.
  - constructor; assumption.
Qed.

(** C9: on a tree whose leaves have leading dimensions
    [(num_devices, population_size_per_device)], [unshard_fn] succeeds
    and returns, leaf by leaf, the row-major concatenation: a leaf of
    leading dimension [population_size_per_device * num_devices] whose
    entry [d * population_size_per_device + j] is the sharded entry
    [[d][j]].  Hence [best_idx], the argmax of the flattened returns,
    names the (device, slot) pair [divmod(best_idx,
    population_size_per_device)], whose return is maximal, and indexing
    the unsharded leaves at [best_idx] reads that member. *)
Theorem C9_unshard_device_major {A : Type}
    (num_devices per_device : nat)
    (sharded_tree : list (list (list A)))
    (population_returns : list (list Q)) :
  Forall (has_shape num_devices per_device) sharded_tree ->
  has_shape num_devices per_device population_returns ->
  exists tree : list (list A),
    unshard_fn (per_device * num_devices) sharded_tree = Some tree
    /\ Forall2 (fun x y =>
          y = concat x
          /\ length y = (per_device * num_devices)%nat
          /\ forall d j, (d < num_devices)%nat -> (j < per_device)%nat ->
               y !! (d * per_device + j)%nat = at_device_slot x d j)
        sharded_tree tree
    /\ ((0 < per_device * num_devices)%nat ->
        is_Some (best_idx population_returns))
    /\ forall k, best_idx population_returns = Some k ->
         (k `div` per_device < num_devices)%nat
         /\ (k `mod` per_device < per_device)%nat
         /\ (exists v : Q,
               at_device_slot population_returns
                 (k `div` per_device) (k `mod` per_device) = Some v
               /\ forall d j v',
                    at_device_slot population_returns d j = Some v' ->
                    (v' <= v)%Q)
         /\ Forall2 (fun x y =>
               y !! k = at_device_slot x (k `div` per_device) (k `mod` per_device))
             sharded_tree tree.
Proof.
  intros Htree [Hlen Hrows].
  exists (map (@concat A) sharded_tree).
  split; [apply unshard_fn_shape; exact Htree |].
  split; [| split].
  - induction Htree as [| x t [Hx Hxr] _ IH]; cbn [map]; constructor; [| exact IH].
    split; [reflexivity |]. split.
    + rewrite (concat_length_rows per_device) by exact Hxr. lia.
    + intros d j _ Hj. apply concat_lookup_rows; assumption.
  - intros Hpos. unfold best_idx.
    pose proof (concat_length_rows per_device population_returns Hrows) as Hc.
    destruct (concat population_returns) as [| q l]; [cbn in Hc; lia |].
    cbn. eexists. reflexivity.
  - intros k Hk. unfold best_idx in Hk.
    apply argmax_spec in Hk as (v & Hlook & Hmax).
    pose proof (lookup_lt_Some _ _ _ Hlook) as Hlt.
    rewrite (concat_length_rows per_device) in Hlt by exact Hrows.
    rewrite Hlen in Hlt.
    assert (0 < per_device)%nat as Hp by nia.
    assert (k `mod` per_device < per_device)%nat as Hj
      by (apply Nat.mod_upper_bound; lia).
    assert (k = k `div` per_device * per_device + k `mod` per_device)%nat as Hdm
      by (pose proof (Nat.div_mod_eq k per_device); lia).
    split; [| split; [exact Hj | split]].
    + apply Nat.Div0.div_lt_upper_bound. lia.
    + exists v. split.
      * rewrite <- (concat_lookup_rows per_device) by assumption.
        rewrite <- Hdm. exact Hlook.
      * intros d j v' Hv'. apply at_device_slot_elem in Hv'.
        rewrite Forall_forall in Hmax. apply Hmax. exact Hv'.
    + clear Hlook Hmax.
      induction Htree as [| x t [Hx Hxr] _ IH]; cbn [map]; constructor; [| exact IH].
      rewrite <- (concat_lookup_rows per_device) by assumption.
      rewrite <- Hdm. reflexivity.
Qed.

Lemma C9_unshard_device_major_witness :
  exists tree : list (list nat),
    unshard_fn (3 * 2) two_by_three_tree = Some tree
    /\ Forall2 (fun x y =>
          y = concat x
          /\ length y = (3 * 2)%nat
          /\ forall d j, (d < 2)%nat -> (j < 3)%nat ->
               y !! (d * 3 + j)%nat = at_device_slot x d j)
        two_by_three_tree tree
    /\ ((0 < 3 * 2)%nat -> is_Some (best_idx two_by_three_returns))
    /\ forall k, best_idx two_by_three_returns = Some k ->
         (k `div` 3 < 2)%nat
         /\ (k `mod` 3 < 3)%nat
         /\ (exists v : Q,
               at_device_slot two_by_three_returns (k `div` 3) (k `mod` 3)
               = Some v
               /\ forall d j v',
                    at_device_slot two_by_three_returns d j = Some v' ->
                    (v' <= v)%Q)
         /\ Forall2 (fun x y =>
               y !! k = at_device_slot x (k `div` 3) (k `mod` 3))
             two_by_three_tree tree.
Proof.
  apply (C9_unshard_device_major 2 3 two_by_three_tree two_by_three_returns).
  - repeat constructor.
  - repeat constructor.
Defined.

(** The example run: member 14, at device 1 and slot 1, has the highest
    return and is read at flat index 4. *)
Example unshard_two_by_three :
  unshard_fn 6 two_by_three_tree = Some [[10; 11; 12; 13; 14; 15]]%nat
  /\ best_idx two_by_three_returns = Some 4%nat
  /\ at_device_slot two_by_three_returns 1 1 = Some 9%Q.
Proof. repeat split. Qed.

(* ------------------------------------------------------------------ *)
(** *** The ranking order *)
(* ------------------------------------------------------------------ *)

Lemma rank_le_spec (returns : list Return) (i j : nat) :
  rank_le returns i j <->
  (value_at returns j < value_at returns i)%Q
  \/ ((value_at returns j == value_at returns i)%Q /\ (i <= j)%nat).
Proof.
  unfold rank_le, ranks_before.
  destruct (value_at returns j ?= value_at returns i)%Q eqn:E.
  - apply Qeq_alt in E. rewrite Nat.leb_le. split.
    + intros Hij. right. split; assumption.
    + intros [Hlt | [_ Hij]]; [| exact Hij].
      rewrite E in Hlt. exfalso. eapply Qlt_irrefl. exact Hlt.
  - apply Qlt_alt in E. split; [intros _; left; exact E | reflexivity].
  - apply Qgt_alt in E. split; [discriminate |].
    intros [Hlt | [Heq _]]; exfalso.
    + eapply Qlt_irrefl. eapply Qlt_trans; eassumption.
    + rewrite Heq in E. eapply Qlt_irrefl. exact E.
Qed.

#[global] Instance rank_le_total (returns : list Return) :
  Total (rank_le returns).
Proof.
  intros i j. rewrite !rank_le_spec.
  destruct (Q_dec (value_at returns i) (value_at returns j)) as [[Hlt | Hgt] | Heq].
  - right. left. exact Hlt.
  - left. left. exact Hgt.
  - destruct (Nat.le_ge_cases i j) as [Hij | Hji].
    + left. right. split; [symmetry; exact Heq | exact Hij].
    + right. right. split; [exact Heq | exact Hji].
Qed.

#[global] Instance rank_le_trans (returns : list Return) :
  Transitive (rank_le returns).
Proof.
  intros i j k. rewrite !rank_le_spec.
  intros [Hji | [Hji Hle1]] [Hkj | [Hkj Hle2]].
  - left. eapply Qlt_trans; eassumption.
  - left. rewrite Hkj. exact Hji.
  - left. rewrite <- Hji. exact Hkj.
  - right. split; [rewrite Hkj; exact Hji | lia].
Qed.

#[global] Instance rank_le_antisymm (returns : list Return) :
  AntiSymm (=) (rank_le returns).
Proof.
  intros i j. rewrite !rank_le_spec.
  intros [Hji | [Hji Hle1]] [Hij | [Hij Hle2]].
  - exfalso. eapply Qlt_irrefl. eapply Qlt_trans; eassumption.
  - exfalso. rewrite Hij in Hji. eapply Qlt_irrefl. exact Hji.
  - exfalso. rewrite Hji in Hij. eapply Qlt_irrefl. exact Hij.
  - lia.
Qed.

Lemma ranking_is_ranking (returns : list Return) :
  is_ranking returns (ranking returns).
Proof.
  unfold is_ranking, ranking. split.
  - apply merge_sort_Permutation.
  - apply StronglySorted_merge_sort; apply _.
Qed.

Lemma ranking_unique (returns : list Return) (l : list nat) :
  is_ranking returns l -> l = ranking returns.
Proof.
  intros [Hperm Hsorted].
  destruct (ranking_is_ranking returns) as [Hperm' Hsorted'].
  eapply (StronglySorted_unique (rank_le returns)); [assumption .. |].
  rewrite Hperm, Hperm'. reflexivity.
Qed.

Lemma ranking_length (returns : list Return) :
  length (ranking returns) = length returns.
Proof.
  destruct (ranking_is_ranking returns) as [Hperm _].
  rewrite Hperm. apply length_seq.
Qed.


Lemma ranking_elem (returns : list Return) (i : nat) :
  i ∈ ranking returns <-> (i < length returns)%nat.
Proof.
  destruct (ranking_is_ranking returns) as [Hperm _].
  rewrite Hperm, list_elem_of_In, in_seq. lia.
Qed.



(* ------------------------------------------------------------------ *)
(** *** The selector *)
(* ------------------------------------------------------------------ *)

Lemma check_config_None (spec : PBT) :
  check_config spec = None <->
  (0 <= num_best_to_replace_from spec)%Z
  /\ (0 <= num_worse_to_replace spec)%Z
  /\ (num_best_to_replace_from spec + num_worse_to_replace spec
      <= population_size spec)%Z.
Proof.
  unfold check_config.
  destruct (Z.ltb_spec (num_best_to_replace_from spec) 0);
    destruct (Z.ltb_spec (num_worse_to_replace spec) 0);
    destruct (Z.ltb_spec (population_size spec)
                (num_best_to_replace_from spec + num_worse_to_replace spec));
    cbn; split; try discriminate; try lia; reflexivity.
Qed.

Lemma existsb_is_nan (returns : list Return) :
  existsb is_nan returns = true <-> NaN ∈ returns.
Proof.
  rewrite existsb_exists. split.
  - intros (r & Hin & Hr). destruct r; [discriminate |].
    apply list_elem_of_In. exact Hin.
  - intros Hin. exists NaN. split; [apply list_elem_of_In; exact Hin | reflexivity].
Qed.

Lemma check_input_None {M : Type} (n : Z) (returns : list Return)
    (population : list M) :
  check_input n returns population = None <->
  Z.of_nat (length returns) = n
  /\ Z.of_nat (length population) = n
  /\ NaN ∉ returns.
Proof.
  unfold check_input. rewrite <- existsb_is_nan.
  destruct (Z.eqb_spec (Z.of_nat (length returns)) n);
    destruct (Z.eqb_spec (Z.of_nat (length population)) n);
    destruct (existsb is_nan returns);
    cbn; intuition (try discriminate; congruence).
Qed.

Lemma validate_None {M : Type} (spec : PBT) (returns : list Return)
    (population : list M) :
  validate spec returns population = None <->
  (Z.of_nat (length returns) = population_size spec
   /\ Z.of_nat (length population) = population_size spec
   /\ NaN ∉ returns)
  /\ ((0 <= num_best_to_replace_from spec)%Z
      /\ (0 <= num_worse_to_replace spec)%Z
      /\ (num_best_to_replace_from spec + num_worse_to_replace spec
          <= population_size spec)%Z).
Proof.
  unfold validate. rewrite <- check_input_None, <- check_config_None.
  destruct (check_input _ _ _); split; try discriminate; tauto.
Qed.

Section SelectorFacts.
Context {rng : Rng} {T H B : Type}.
Variable resample : RngState -> H -> H.

Abbreviation M := (Member T H B).
Abbreviation replace := (replace_member resample).

Lemma build_mapping_elem (k : RngState) (best worse : list nat)
    (w s : nat) (kp : RngState) :
  (w, s, kp) ∈ build_mapping k best worse -> w ∈ worse /\ s ∈ best.
Proof.
  revert k. induction worse as [| w0 worse IH]; intros k Hin.
  - cbn in Hin. apply elem_of_nil in Hin. contradiction.
  - cbn [build_mapping] in Hin.
    destruct (rng_split k) as [k' sub].
    destruct (rng_split sub) as [k_draw k_perturb].
    destruct (best !! rng_below k_draw (length best)) as [s0 |] eqn:Hs0.
    + apply elem_of_cons in Hin as [Heq | Hin].
      * injection Heq as -> -> ->. split; [left |].
        eapply list_elem_of_lookup_2. exact Hs0.
      * destruct (IH _ Hin) as [Hw Hs]. split; [right |]; assumption.
    + destruct (IH _ Hin) as [Hw Hs]. split; [right |]; assumption.
Qed.

Lemma replace_member_length (flag : bool) (population p : list M)
    (pair : nat * nat * RngState) :
  length (replace flag population p pair) = length p.
Proof.
  destruct pair as [[w s] kp]. unfold replace_member.
  destruct (population !! s); [apply length_insert | reflexivity].
Qed.

Lemma fold_replace_length (flag : bool) (population : list M)
    (mapping : list (nat * nat * RngState)) (p : list M) :
  length (fold_left (replace flag population) mapping p) = length p.
Proof.
  revert p. induction mapping as [| pair mapping IH]; intros p.
  - reflexivity.
  - cbn [fold_left]. rewrite IH. apply replace_member_length.
Qed.

(** Slots that are no target of the mapping keep their content. *)
Lemma fold_replace_frame (flag : bool) (population : list M)
    (mapping : list (nat * nat * RngState)) (p : list M) (i : nat) :
  i ∉ map (fun pair => fst (fst pair)) mapping ->
  fold_left (replace flag population) mapping p !! i = p !! i.
Proof.
  revert p. induction mapping as [| [[w s] kp] mapping IH]; intros p Hi.
  - reflexivity.
  - cbn [fold_left map fst] in *.
    apply not_elem_of_cons in Hi as [Hne Hi].
    rewrite IH by exact Hi.
    unfold replace_member. destruct (population !! s); [| reflexivity].
    apply list_lookup_insert_ne. congruence.
Qed.
End SelectorFacts.

(** C5: on every valid input the selector succeeds, the returned
    population has the size of the input population, and every member
    whose index is not among [worse_indices] is returned exactly as it
    was passed in - training state (with its step counters),
    hyperparameters and replay buffer alike. *)
Theorem C5_non_replaced_members_unchanged
    {rng : Rng} {T H B : Type} (resample : RngState -> H -> H)
    (perturb_hyperparameters : bool) (rng_state : RngState)
    (returns : list Return) (population : list (Member T H B)) (spec : PBT) :
  Z.of_nat (length returns) = population_size spec ->
  Z.of_nat (length population) = population_size spec ->
  NaN ∉ returns ->
  (0 <= num_best_to_replace_from spec)%Z ->
  (0 <= num_worse_to_replace spec)%Z ->
  (num_best_to_replace_from spec + num_worse_to_replace spec
   <= population_size spec)%Z ->
  exists new_rng_state new_population,
    select_and_replace resample perturb_hyperparameters rng_state
                       returns population spec
    = inr (new_rng_state, new_population)
    /\ length new_population = length population
    /\ forall i : nat,
         i ∉ worse_indices returns (num_worse_to_replace spec) ->
         new_population !! i = population !! i.
Proof.
  intros Hr Hp Hnan Hb Hw Hsum.
  assert (validate spec returns population = None) as Hv
    by (apply validate_None; tauto).
  unfold select_and_replace. rewrite Hv.
  destruct (rng_split rng_state) as [r' k].
  eexists _, _. split; [reflexivity |]. split.
  - apply fold_replace_length.
  - intros i Hi. apply fold_replace_frame.
    intros Hin. apply Hi.
    apply list_elem_of_fmap in Hin as ([[w s] kp] & -> & Hin).
    apply build_mapping_elem in Hin as [Hin _]. exact Hin.
Qed.

Lemma C5_non_replaced_members_unchanged_witness :
  exists new_rng_state new_population,
    select_and_replace (rng := tree_rng) add_key true 0%nat
                       returns_distinct four_members (mkPBT 4 1 1)
    = inr (new_rng_state, new_population)
    /\ length new_population = length four_members
    /\ forall i : nat,
         i ∉ worse_indices returns_distinct 1 ->
         new_population !! i = four_members !! i.
Proof.
  apply (C5_non_replaced_members_unchanged (rng := tree_rng) add_key true 0%nat
           returns_distinct four_members (mkPBT 4 1 1)).
  - reflexivity.
  - reflexivity.
  - intros Hin. apply existsb_is_nan in Hin. vm_compute in Hin. discriminate.
  - cbn. lia.
  - cbn. lia.
  - cbn. lia.
Defined.



(** Rejections at concrete inputs: a NaN return and the single-device
    SAC configuration. *)
Example select_rejects_nan :
  select_and_replace (rng := tree_rng) add_key false 0%nat
                     returns_with_nan four_members (mkPBT 4 1 1)
  = inl InvalidInput.
Proof. reflexivity. Qed.

Example select_rejects_single_device_sac :
  select_and_replace (rng := tree_rng) add_key false 0%nat
                     (repeat (Finite 1) 10)
                     (repeat (member 0 0 0) 10) (sac_pbt 1)
  = inl InvalidConfig.
Proof. reflexivity. Qed.

Example select_distinct_scenario :
  select_and_replace (rng := tree_rng) add_key false 0%nat
                     returns_distinct four_members (mkPBT 4 1 1)
  = inr (1%nat, [member 0 100 1000; member 1 101 1001;
                 member 1 101 1001; member 3 103 1003]).
Proof. reflexivity. Qed.

(* ================================================================== *)
(** ** Further properties of the notebooks' cells *)
(* ================================================================== *)

(* ------------------------------------------------------------------ *)
(** *** State threading in the outer training loop *)
(* ------------------------------------------------------------------ *)

Lemma range_succ (i : Z) :
  (0 <= i)%Z -> range (i + 1) = range i ++ [i].
Proof.
  intros Hi.
  replace (i + 1)%Z with (Z.of_nat (S (Z.to_nat i))) by lia.
  rewrite range_snoc. rewrite Z2Nat.id by lia. reflexivity.
Qed.

Lemma range_nonpos (n : Z) : (n <= 0)%Z -> range n = [].
Proof.
  intros Hn. unfold range.
  replace (Z.to_nat n) with 0%nat by lia. reflexivity.
Qed.

Section OuterLoopThreading.
Context {TrainingStates EnvStates ReplayBuffers Keys Metrics : Type}.
Context {EvalStates Returns : Type}.
Variable train_fn :
  TrainingStates -> EnvStates -> ReplayBuffers ->
  (TrainingStates * EnvStates * ReplayBuffers) * Metrics.
Variable eval_policy : TrainingStates -> EvalStates -> Returns * Metrics.
Variable select_fn :
  Keys -> Returns -> TrainingStates -> ReplayBuffers ->
  Keys * TrainingStates * ReplayBuffers.
Variable reshape_returns : Returns -> Returns.

Abbreviation G' := (Globals TrainingStates EnvStates ReplayBuffers Keys Metrics
                            EvalStates Returns).
Abbreviation body' := (loop_body train_fn eval_policy select_fn reshape_returns).
Abbreviation each' := (for_each train_fn eval_policy select_fn reshape_returns).
Abbreviation loop' := (outer_loop train_fn eval_policy select_fn reshape_returns).
Abbreviation before' :=
  (globals_before train_fn eval_policy select_fn reshape_returns).

Lemma globals_before_succ (num_loops i : Z) (g0 : G') :
  (0 <= i)%Z ->
  before' num_loops (i + 1) g0
  = fst (body' num_loops i (before' num_loops i g0)).
Proof.
  intros Hi. unfold globals_before.
  rewrite range_succ by exact Hi.
  rewrite for_each_app. cbn [fst]. rewrite for_each_cons. reflexivity.
Qed.

Lemma outer_loop_last (num_loops : Z) (g0 : G') :
  (0 < num_loops)%Z ->
  fst (loop' num_loops g0)
  = fst (body' num_loops (num_loops - 1)
               (before' num_loops (num_loops - 1) g0)).
Proof.
  intros Hn.
  rewrite <- globals_before_succ by lia.
  unfold outer_loop, globals_before.
  replace (num_loops - 1 + 1)%Z with num_loops by lia. reflexivity.
Qed.

(** X1: when the loop has run at least once, the globals it leaves are
    consistent: [population_returns] is the evaluation of the final
    [training_states] (the last iteration trains and evaluates but
    does not select), [population_returns_flatten] is its reshape, the
    states are those returned by the last [train_fn] call, and the keys
    are those the last iteration started with. *)
Theorem final_returns_match_final_states (num_loops : Z)
    (g0 : Globals TrainingStates EnvStates ReplayBuffers Keys Metrics
                  EvalStates Returns) :
  (0 < num_loops)%Z ->
  let g := globals_before train_fn eval_policy select_fn reshape_returns
                          num_loops (num_loops - 1) g0 in
  let gf := fst (outer_loop train_fn eval_policy select_fn reshape_returns
                            num_loops g0) in
  population_returns gf
    = fst (eval_policy (training_states gf) (eval_env_first_states gf))
  /\ population_returns_flatten gf
     = Some (reshape_returns (population_returns gf))
  /\ (training_states gf, env_states gf, replay_buffers gf)
     = fst (train_fn (training_states g) (env_states g) (replay_buffers g))
  /\ metrics gf
     = Some (snd (train_fn (training_states g) (env_states g) (replay_buffers g)))
  /\ keys gf = keys g.
Proof.
  intros Hn g gf. subst gf. rewrite outer_loop_last by exact Hn. fold g.
  unfold loop_body.
  destruct (train_fn _ _ _) as [[[ts es] rb] m].
  destruct (eval_policy ts (eval_env_first_states g)) as [ret u] eqn:He.
  replace (num_loops - 1 <? num_loops - 1)%Z with false
    by (symmetry; apply Z.ltb_irrefl).
  cbn [fst snd population_returns training_states eval_env_first_states
       population_returns_flatten env_states replay_buffers metrics keys].
  rewrite He. repeat split.
Qed.

(** X2: before the last iteration, the next iteration starts from what
    the selection returned: its keys, training states and replay
    buffers are the three outputs of [select_fn]; the environment
    states are those returned by [train_fn] (selection never touches
    them), and [population_returns] still holds the returns measured
    before the selection. *)
Theorem selection_feeds_next_iteration (num_loops i : Z)
    (g0 : Globals TrainingStates EnvStates ReplayBuffers Keys Metrics
                  EvalStates Returns)
    ts es rb m ret u :
  (0 <= i < num_loops - 1)%Z ->
  let g := globals_before train_fn eval_policy select_fn reshape_returns num_loops i g0 in
  let g' := globals_before train_fn eval_policy select_fn reshape_returns
                           num_loops (i + 1) g0 in
  train_fn (training_states g) (env_states g) (replay_buffers g)
    = ((ts, es, rb), m) ->
  eval_policy ts (eval_env_first_states g) = (ret, u) ->
  (keys g', training_states g', replay_buffers g')
    = select_fn (keys g) ret ts rb
  /\ env_states g' = es
  /\ population_returns g' = ret
  /\ metrics g' = Some m.
Proof.
  intros Hi g g' Ht He. subst g'.
  rewrite globals_before_succ by lia. fold g.
  unfold loop_body. rewrite Ht, He.
  replace (i <? num_loops - 1)%Z with true by (symmetry; apply Z.ltb_lt; lia).
  destruct (select_fn (keys g) ret ts rb) as [[k' ts'] rb'].
  repeat split.
Qed.

(** X3: a non-positive [num_loops] runs no iteration: no call is made
    and every global keeps its value; and [metrics], unbound before
    the loop, is bound after it exactly when [num_loops] is positive. *)
Theorem loop_runs_iff_positive (num_loops : Z)
    (g0 : Globals TrainingStates EnvStates ReplayBuffers Keys Metrics
                  EvalStates Returns) :
  metrics g0 = None ->
  ((num_loops <= 0)%Z ->
   outer_loop train_fn eval_policy select_fn reshape_returns num_loops g0
   = (g0, []))
  /\ (is_Some (metrics (fst (outer_loop train_fn eval_policy select_fn
                                        reshape_returns num_loops g0)))
      <-> (0 < num_loops)%Z).
Proof.
  intros Hm.
  assert ((num_loops <= 0)%Z -> loop' num_loops g0 = (g0, [])) as Hskip.
  { intros Hn. unfold outer_loop. rewrite range_nonpos by exact Hn. reflexivity. }
  split; [exact Hskip |]. split.
  - intros Hs. destruct (Z_lt_le_dec 0 num_loops) as [Hpos | Hn]; [exact Hpos |].
    rewrite Hskip in Hs by exact Hn. cbn [fst] in Hs. rewrite Hm in Hs.
    destruct Hs as [x Hx]. discriminate.
  - intros Hpos. rewrite outer_loop_last by exact Hpos.
    unfold loop_body.
    destruct (train_fn _ _ _) as [[[ts es] rb] m].
    destruct (eval_policy _ _) as [ret u].
    destruct (_ <? _)%Z.
    + destruct (select_fn _ _ _ _) as [[k' ts'] rb']. eexists. reflexivity.
    + eexists. reflexivity.
Qed.
End OuterLoopThreading.

Lemma final_returns_match_final_states_witness :
  let gf := fst (counting_loop 10) in
  population_returns gf
    = fst (counting_eval (training_states gf) (eval_env_first_states gf))
  /\ training_states gf = 10%nat
  /\ keys gf = 9%nat.
Proof.
  pose proof (final_returns_match_final_states
                counting_train counting_eval counting_select id 10%Z
                counting_globals ltac:(lia)) as H.
  cbv zeta in H. destruct H as (Hr & _ & _ & _ & _).
  split; [exact Hr |]. split; reflexivity.
Defined.

Lemma selection_feeds_next_iteration_witness :
  let g' := globals_before counting_train counting_eval counting_select id
                           10%Z (3 + 1)%Z counting_globals in
  (keys g', training_states g', replay_buffers g')
    = counting_select 3 11 4 0
  /\ env_states g' = 0%nat
  /\ population_returns g' = 11%nat
  /\ metrics g' = Some tt.
Proof.
  apply (selection_feeds_next_iteration
           counting_train counting_eval counting_select id 10%Z 3%Z
           counting_globals 4 0 0 tt 11 tt).
  - lia.
  - reflexivity.
  - reflexivity.
Defined.

Lemma loop_runs_iff_positive_witness :
  ((0 <= 0)%Z -> counting_loop 0 = (counting_globals, []))
  /\ (is_Some (metrics (fst (counting_loop 0))) <-> (0 < 0)%Z).
Proof.
  apply (loop_runs_iff_positive counting_train counting_eval counting_select
           id 0%Z counting_globals).
  reflexivity.
Defined.

(* ------------------------------------------------------------------ *)
(** *** What the CMA-ES loop leaves behind *)
(* ------------------------------------------------------------------ *)

Lemma zip_map_same {X Y1 Y2 : Type} (f : X -> Y1) (g : X -> Y2) (l : list X) :
  zip (map f l) (map g l) = map (fun x => (f x, g x)) l.
Proof.
  induction l as [| x l IH]; [reflexivity |]. cbn. rewrite IH. reflexivity.
Qed.

Lemma take_map_seq {X : Type} (f : nat -> X) (n m : nat) :
  (n <= m)%nat -> take n (map f (seq 0 m)) = map f (seq 0 n).
Proof.
  intros Hnm. replace m with (n + (m - n))%nat by lia.
  rewrite seq_app, map_app, take_app_length'; [reflexivity |].
  rewrite length_map, length_seq. reflexivity.
Qed.

Lemma last_map_seq {X : Type} (f : nat -> X) (n : nat) :
  last (map f (seq 0 (S n))) = Some (f n).
Proof.
  rewrite seq_S, map_app. cbn [map Nat.add]. apply last_snoc.
Qed.

Lemma py_slice_prefix {X : Type} (l : list X) (stop : Z) :
  (0 <= stop)%Z -> (Z.to_nat stop <= length l)%nat ->
  py_slice 0 stop l = take (Z.to_nat stop) l.
Proof.
  intros Hs Hl. unfold py_slice, slice_index.
  replace (0 <? 0)%Z with false by reflexivity.
  replace (stop <? 0)%Z with false by (symmetry; apply Z.ltb_ge; exact Hs).
  change (Z.to_nat 0) with 0%nat. rewrite Nat.min_0_l, Nat.sub_0_r.
  rewrite Nat.min_l by exact Hl. reflexivity.
Qed.

Section CmaesHistory.
Context {State RNGKey Samples Mean Cov : Type}.
Variable sample : State -> RNGKey -> Samples * RNGKey.
Variable update : State -> Samples -> State.
Variable stop_condition : State -> bool.
Variable state_mean : State -> Mean.
Variable scaled_cov : State -> Cov.

Abbreviation run_for' :=
  (cmaes_for sample update stop_condition state_mean scaled_cov).
Abbreviation run_loop :=
  (cmaes_loop sample update stop_condition state_mean scaled_cov).
Abbreviation after' := (state_after sample update).
Abbreviation traj := (cmaes_trajectory sample update).

Lemma state_after_round (j : nat) (st : State) (key : RNGKey)
    (smp : Samples) (key' : RNGKey) :
  sample st key = (smp, key') ->
  after' (S j) st key = after' j (update st smp) key'.
Proof.
  intros Hs. rewrite state_after_succ. unfold cmaes_round. rewrite Hs.
  reflexivity.
Qed.

Lemma history_shift {X : Type} (f : State -> X) (st : State) (key : RNGKey)
    (smp : Samples) (key' : RNGKey) (pre : list X) (m : nat) :
  sample st key = (smp, key') ->
  (pre ++ [f (update st smp)])
    ++ map (fun j => f (after' j (update st smp) key')) (seq 1 m)
  = pre ++ map (fun j => f (after' j st key)) (seq 1 (S m)).
Proof.
  intros Hs. rewrite <- app_assoc. f_equal.
  cbn [seq map app]. f_equal.
  - rewrite (state_after_round 0 st key smp key' Hs). reflexivity.
  - rewrite <- (seq_shift m 1), map_map. apply map_ext. intros j.
    rewrite (state_after_round j st key smp key' Hs). reflexivity.
Qed.

(** The complete account of a run of the loop from any bindings: [c]
    rounds are made, and [b] tells whether the loop left through
    [break]. *)
Lemma cmaes_for_run (fuel : nat) (v : CmaesVars) :
  exists (c : nat) (b : bool),
    (c <= fuel)%nat
    /\ iteration_count (run_for' fuel v) = (iteration_count v + Z.of_nat c)%Z
    /\ (state (run_for' fuel v), random_key (run_for' fuel v))
       = traj c (state v) (random_key v)
    /\ (b = true ->
        (1 <= c)%nat /\ stop_condition (state (run_for' fuel v)) = true)
    /\ (b = false ->
        c = fuel
        /\ ((1 <= c)%nat -> stop_condition (state (run_for' fuel v)) = false))
    /\ means (run_for' fuel v)
       = means v ++ map (fun j => state_mean (after' j (state v) (random_key v)))
                        (seq 1 (c - (if b then 1 else 0)))
    /\ covs (run_for' fuel v)
       = covs v ++ map (fun j => scaled_cov (after' j (state v) (random_key v)))
                       (seq 1 (c - (if b then 1 else 0)))
    /\ samples (run_for' fuel v)
       = match c with
         | O => samples v
         | S c' => Some (fst (sample (fst (traj c' (state v) (random_key v)))
                                     (snd (traj c' (state v) (random_key v)))))
         end.
Proof.
  revert v. induction fuel as [| fuel IH]; intros v.
  - exists 0%nat, false. cbn. rewrite !app_nil_r.
    repeat split; try reflexivity; try discriminate; lia.
  - cbn [cmaes_for].
    destruct (sample (state v) (random_key v)) as [smp key] eqn:Es.
    destruct (stop_condition (update (state v) smp)) eqn:Est.
    + exists 1%nat, true. cbn [state random_key iteration_count means covs samples].
      cbn [cmaes_trajectory]. unfold cmaes_round. rewrite Es.
      cbn [Nat.sub seq map fst snd]. rewrite !app_nil_r.
      repeat split; try reflexivity; try discriminate; try lia.
      * exact Est.
      * rewrite Es. reflexivity.
    + match goal with |- context [run_for' fuel ?w] =>
        destruct (IH w) as (c & b & Hc & Hcount & Htraj & Hb & Hnb & Hm & Hcv & Hsm);
        set (r := run_for' fuel w) in *
      end.
      cbn [state random_key iteration_count means covs samples] in *.
      exists (S c), b.
      assert (c - (if b then 1 else 0) + 1
              = S c - (if b then 1 else 0))%nat as Hlen.
      { destruct b; [destruct (Hb eq_refl) |]; lia. }
      split; [lia |]. split; [lia |]. split.
      { cbn [cmaes_trajectory]. unfold cmaes_round. rewrite Es. exact Htraj. }
      split.
      { intros Hbt. destruct (Hb Hbt) as [H1 H2]. split; [lia | exact H2]. }
      split.
      { intros Hbf. destruct (Hnb Hbf) as [-> Hlast]. split; [reflexivity |].
        intros _. destruct fuel as [| fuel'].
        - subst r. cbn [cmaes_for state]. exact Est.
        - apply Hlast. lia. }
      split.
      { rewrite Hm, <- Hlen, Nat.add_1_r. apply history_shift. exact Es. }
      split.
      { rewrite Hcv, <- Hlen, Nat.add_1_r. apply history_shift. exact Es. }
      rewrite Hsm. destruct c as [| c'].
      * cbn [cmaes_trajectory fst snd]. rewrite Es. reflexivity.
      * cbn [cmaes_trajectory]. unfold cmaes_round. rewrite Es. reflexivity.
Qed.

(** The same account for the cell as run by the notebook, in terms of
    what it leaves bound. *)
Lemma cmaes_loop_run (num_iterations : Z) (st : State) (key : RNGKey) :
  let r := run_loop num_iterations st key in
  let c := Z.to_nat (iteration_count r) in
  let stopped := (0 <? c)%nat && stop_condition (state r) in
  (0 <= iteration_count r)%Z
  /\ (c <= Z.to_nat num_iterations)%nat
  /\ (stopped = false -> c = Z.to_nat num_iterations)
  /\ (state r, random_key r) = traj c st key
  /\ means r = map (fun j => state_mean (after' j st key))
                   (seq 0 (if stopped then c else S c))
  /\ covs r = map (fun j => scaled_cov (after' j st key))
                  (seq 0 (if stopped then c else S c))
  /\ samples r
     = match c with
       | O => None
       | S c' => Some (fst (sample (fst (traj c' st key)) (snd (traj c' st key))))
       end.
Proof.
  intros r c stopped. subst r c stopped. unfold cmaes_loop.
  destruct (cmaes_for_run (Z.to_nat num_iterations)
              (cmaes_init state_mean scaled_cov st key))
    as (c & b & Hc & Hcount & Htraj & Hb & Hnb & Hm & Hcv & Hsm).
  set (r := run_for' _ _) in *.
  cbn [cmaes_init state random_key iteration_count means covs samples] in *.
  rewrite Hcount. replace (Z.to_nat (0 + Z.of_nat c)) with c by lia.
  assert ((0 <? c)%nat && stop_condition (state r) = b) as ->.
  { destruct b.
    - destruct (Hb eq_refl) as [H1 ->].
      replace (0 <? c)%nat with true by (symmetry; apply Nat.ltb_lt; lia).
      reflexivity.
    - destruct (Hnb eq_refl) as [_ Hlast]. destruct c as [| c']; [reflexivity |].
      rewrite Hlast by lia. apply andb_false_r. }
  assert (S (c - (if b then 1 else 0)) = (if b then c else S c))%nat as Hlen.
  { destruct b; [destruct (Hb eq_refl) |]; lia. }
  split; [lia |]. split; [exact Hc |]. split.
  { intros ->. apply Hnb. reflexivity. }
  split; [exact Htraj |]. rewrite <- Hlen.
  split; [rewrite Hm; reflexivity |]. split; [rewrite Hcv; reflexivity |].
  exact Hsm.
Qed.
End CmaesHistory.

Section CmaesCellsFacts.
Context {State RNGKey Samples Mean Cov : Type}.
Variable sample : State -> RNGKey -> Samples * RNGKey.
Variable update : State -> Samples -> State.
Variable stop_condition : State -> bool.
Variable state_mean : State -> Mean.
Variable scaled_cov : State -> Cov.

Abbreviation the_loop :=
  (cmaes_loop sample update stop_condition state_mean scaled_cov).
Abbreviation the_for :=
  (cmaes_for sample update stop_condition state_mean scaled_cov).
Abbreviation state_at := (state_after sample update).

(** X4: the optimiser state and the key left by the loop are those
    reached by exactly [iteration_count] sample/update rounds from the
    initial state and key, and [iteration_count] never exceeds the
    number of values [range(num_iterations)] yields. *)
Theorem cmaes_final_state_is_trajectory
    (num_iterations : Z) (st : State) (key : RNGKey) :
  let r := cmaes_loop sample update stop_condition state_mean scaled_cov
                      num_iterations st key in
  (state r, random_key r)
    = cmaes_trajectory sample update (Z.to_nat (iteration_count r)) st key
  /\ (0 <= iteration_count r)%Z
  /\ (Z.to_nat (iteration_count r) <= Z.to_nat num_iterations)%nat.
Proof.
  destruct (cmaes_loop_run sample update stop_condition state_mean scaled_cov
              num_iterations st key) as (H0 & Hc & _ & Htraj & _).
  cbv zeta. split; [exact Htraj |]. split; [exact H0 | exact Hc].
Qed.

(** X5: [means] and [covs] always have the same length; entry [j] of
    each is computed from the state after [j] rounds; after a [break]
    they hold [iteration_count] entries (the stopping state is not
    recorded), otherwise [iteration_count + 1]. *)
Theorem cmaes_history_recorded
    (num_iterations : Z) (st : State) (key : RNGKey) :
  let r := cmaes_loop sample update stop_condition state_mean scaled_cov
                      num_iterations st key in
  let c := Z.to_nat (iteration_count r) in
  let stopped := (0 <? c)%nat && stop_condition (state r) in
  length (means r) = length (covs r)
  /\ length (means r) = (if stopped then c else S c)
  /\ forall j, (j < length (means r))%nat ->
       means r !! j = Some (state_mean (state_after sample update j st key))
       /\ covs r !! j = Some (scaled_cov (state_after sample update j st key)).
Proof.
  destruct (cmaes_loop_run sample update stop_condition state_mean scaled_cov
              num_iterations st key) as (_ & _ & _ & _ & Hm & Hcv & _).
  cbv zeta in *. rewrite Hm, Hcv, !length_map, !length_seq.
  split; [reflexivity |]. split; [reflexivity |].
  intros j Hj.
  rewrite !list_lookup_fmap, lookup_seq_lt by exact Hj. split; reflexivity.
Qed.

(** X6: the plotting cell draws exactly [iteration_count] ellipses, the
    [j]-th from the state after [j] rounds, starting with the initial
    state; the state after the last round is never drawn. *)
Theorem plotted_trajectory_points
    (num_iterations : Z) (st : State) (key : RNGKey) :
  let r := cmaes_loop sample update stop_condition state_mean scaled_cov
                      num_iterations st key in
  plotted_trajectory r
  = map (fun j => (state_mean (state_after sample update j st key),
                   scaled_cov (state_after sample update j st key)))
        (seq 0 (Z.to_nat (iteration_count r))).
Proof.
  destruct (cmaes_loop_run sample update stop_condition state_mean scaled_cov
              num_iterations st key) as (H0 & _ & _ & _ & Hm & Hcv & _).
  cbv zeta in *. unfold plotted_trajectory.
  set (r := the_loop num_iterations st key) in *.
  set (c := Z.to_nat (iteration_count r)) in *.
  assert (c <= (if (0 <? c)%nat && stop_condition (state r) then c else S c))%nat
    as Hle by (destruct (_ && _); lia).
  rewrite !py_slice_prefix; try exact H0;
    try (rewrite ?Hm, ?Hcv, length_map, length_seq; exact Hle).
  fold c. rewrite Hm, Hcv, !take_map_seq by exact Hle.
  apply zip_map_same.
Qed.

(** X7: [samples], which the cell after the loop evaluates, is bound
    exactly when [num_iterations] is positive, and then holds the
    samples drawn in the last round that was run. *)
Theorem cmaes_samples_bound
    (num_iterations : Z) (st : State) (key : RNGKey) :
  let r := cmaes_loop sample update stop_condition state_mean scaled_cov
                      num_iterations st key in
  let c := Z.to_nat (iteration_count r) in
  (samples r = None <-> (num_iterations <= 0)%Z)
  /\ ((0 < num_iterations)%Z ->
      (1 <= c)%nat
      /\ samples r
         = Some (fst (sample
                        (fst (cmaes_trajectory sample update (c - 1) st key))
                        (snd (cmaes_trajectory sample update (c - 1) st key))))).
Proof.
  destruct (cmaes_loop_run sample update stop_condition state_mean scaled_cov
              num_iterations st key) as (_ & Hc & Hns & _ & _ & _ & Hsm).
  cbv zeta in *.
  set (r := the_loop num_iterations st key) in *.
  set (c := Z.to_nat (iteration_count r)) in *.
  assert ((0 < num_iterations)%Z -> (1 <= c)%nat) as Hpos.
  { intros Hn. destruct ((0 <? c)%nat && stop_condition (state r)) eqn:Hst.
    - apply andb_true_iff in Hst as [Hlt _]. apply Nat.ltb_lt in Hlt. lia.
    - rewrite Hns by reflexivity. lia. }
  split.
  - rewrite Hsm. split.
    + intros Hnone. destruct c as [| c'] eqn:Ec; [| discriminate].
      destruct (Z_lt_le_dec 0 num_iterations) as [Hn | Hn]; [| exact Hn].
      apply Hpos in Hn. lia.
    + intros Hn. replace c with 0%nat by lia. reflexivity.
  - intros Hn. split; [apply Hpos; exact Hn |].
    rewrite Hsm. pose proof (Hpos Hn).
    destruct c as [| c']; [lia |].
    replace (S c' - 1)%nat with c' by lia. reflexivity.
Qed.

(** X8: [means[-1]], printed as the final mean, exists after every run;
    when the loop ran to completion it is the mean of the final state,
    but after a [break] it is the mean of the state one update before
    the final one. *)
Theorem final_mean_after_stop
    (num_iterations : Z) (st : State) (key : RNGKey) :
  let r := cmaes_loop sample update stop_condition state_mean scaled_cov
                      num_iterations st key in
  let c := Z.to_nat (iteration_count r) in
  let stopped := (0 <? c)%nat && stop_condition (state r) in
  state r = state_after sample update c st key
  /\ (stopped = false -> final_mean r = Some (state_mean (state r)))
  /\ (stopped = true ->
      final_mean r = Some (state_mean (state_after sample update (c - 1) st key))).
Proof.
  destruct (cmaes_loop_run sample update stop_condition state_mean scaled_cov
              num_iterations st key) as (_ & _ & _ & Htraj & Hm & _).
  cbv zeta in *. unfold final_mean.
  set (r := the_loop num_iterations st key) in *.
  set (c := Z.to_nat (iteration_count r)) in *.
  assert (state r = state_at c st key) as Hstate.
  { unfold state_after. rewrite <- Htraj. reflexivity. }
  split; [exact Hstate |]. rewrite Hm. split.
  - intros ->. rewrite last_map_seq, Hstate. reflexivity.
  - intros Hst. rewrite Hst.
    apply andb_true_iff in Hst as [Hlt _]. apply Nat.ltb_lt in Hlt.
    pose proof (last_map_seq (fun j => state_mean (state_at j st key)) (c - 1))
      as Hl.
    replace (S (c - 1)) with c in Hl by lia. exact Hl.
Qed.

Lemma cmaes_for_stop_stable (fuel fuel' k : nat) (v : CmaesVars) :
  (1 <= k <= fuel)%nat -> (k <= fuel')%nat ->
  stop_condition (state_at k (state v) (random_key v)) = true ->
  the_for fuel v = the_for fuel' v.
Proof.
  revert fuel' k v. induction fuel as [| fuel IH]; intros fuel' k v Hk Hk' Hstop.
  - lia.
  - destruct fuel' as [| fuel']; [lia |].
    cbn [cmaes_for].
    destruct (sample (state v) (random_key v)) as [smp key] eqn:Es.
    destruct (stop_condition (update (state v) smp)) eqn:Est; [reflexivity |].
    destruct k as [| k]; [lia |].
    rewrite (state_after_round sample update k _ _ _ _ Es) in Hstop.
    destruct k as [| k].
    + unfold state_after in Hstop. cbn in Hstop. congruence.
    + apply (IH fuel' (S k)); [lia | lia | exact Hstop].
Qed.

(** X9: once the stop condition holds after some round [k] within the
    budget, the whole outcome of the cell is the same for every larger
    budget: raising [num_iterations] past the stopping round changes
    nothing. *)
Theorem cmaes_budget_irrelevant_after_stop
    (num_iterations num_iterations' : Z) (k : nat) (st : State) (key : RNGKey) :
  (1 <= k <= Z.to_nat num_iterations)%nat ->
  (num_iterations <= num_iterations')%Z ->
  stop_condition (state_after sample update k st key) = true ->
  cmaes_loop sample update stop_condition state_mean scaled_cov
             num_iterations' st key
  = cmaes_loop sample update stop_condition state_mean scaled_cov
               num_iterations st key.
Proof.
  intros Hk Hn Hstop. unfold cmaes_loop. symmetry.
  apply (cmaes_for_stop_stable _ _ k); [exact Hk | lia | exact Hstop].
Qed.
End CmaesCellsFacts.

Lemma cmaes_budget_irrelevant_after_stop_witness :
  toy_cmaes 1000 = toy_cmaes 5.
Proof.
  apply (cmaes_budget_irrelevant_after_stop
           toy_sample toy_update toy_stop id id 5%Z 1000%Z 3 0%nat 0%nat).
  - cbn. lia.
  - lia.
  - reflexivity.
Defined.

(* ------------------------------------------------------------------ *)
(** *** [init_environments] *)
(* ------------------------------------------------------------------ *)

Section InitEnvironmentsFacts.
Context {Name Env RNGKey A : Type}.
Variable create : Name -> nat -> Z -> bool -> Env.
Variable reset : Env -> RNGKey -> list (list A).
Variable env_name : Name.
Variable env_batch_size : nat.
Variable population_size_per_device : nat.
Variable episode_length : Z.

Abbreviation the_env :=
  (make_env create env_name env_batch_size population_size_per_device
            episode_length).
Abbreviation init_envs :=
  (init_environments create reset env_name env_batch_size
                     population_size_per_device episode_length).

Lemma chunks_shape (rows width : nat) (x : list A) :
  length x = (rows * width)%nat ->
  has_shape rows width (chunks rows width x)
  /\ concat (chunks rows width x) = x.
Proof.
  revert x. induction rows as [| rows IH]; intros x Hlen.
  - cbn in Hlen. apply nil_length_inv in Hlen as ->.
    repeat split. constructor.
  - cbn [chunks concat].
    destruct (IH (drop width x)) as [[Hl Hrows] Hcat].
    { rewrite length_drop. lia. }
    split; [split |].
    + cbn [length]. rewrite Hl. reflexivity.
    + constructor; [| exact Hrows]. rewrite length_take. lia.
    + rewrite Hcat. apply take_drop.
Qed.

Lemma reshape_fn_ok (tree : list (list A)) :
  Forall (fun leaf => length leaf
                      = (population_size_per_device * env_batch_size)%nat) tree ->
  reshape_fn env_batch_size population_size_per_device tree
  = Some (map (chunks population_size_per_device env_batch_size) tree).
Proof.
  intros Hall. unfold reshape_fn. apply mapM_Some_2.
  induction Hall as [| leaf tree Hleaf _ IH]; constructor; [| exact IH].
  unfold reshape_rows. rewrite Hleaf, Nat.eqb_refl. reflexivity.
Qed.

(** X10: when every leaf of a freshly reset state has the environment's
    batch size as leading dimension, [init_environments] succeeds; the
    evaluation states it returns equal the training states (same
    configuration, same key); each leaf is cut into
    [population_size_per_device] rows of [env_batch_size] entries, so
    that member [p] owns the entries [p * env_batch_size + e] of the
    flat batch, and flattening the rows gives the batch back. *)
Theorem init_environments_layout (random_key : RNGKey) :
  (forall name batch_size len auto key,
      Forall (fun leaf => length leaf = batch_size)
             (reset (create name batch_size len auto) key)) ->
  exists states : list (list (list A)),
    init_environments create reset env_name env_batch_size
                      population_size_per_device episode_length random_key
    = Some (states, states)
    /\ Forall2 (fun flat rows =>
          has_shape population_size_per_device env_batch_size rows
          /\ concat rows = flat
          /\ forall p e, (e < env_batch_size)%nat ->
               at_device_slot rows p e
               = flat !! (p * env_batch_size + e)%nat)
        (reset (make_env create env_name env_batch_size
                         population_size_per_device episode_length)
               random_key)
        states.
Proof.
  intros Hbatch.
  assert (Forall (fun leaf => length leaf
                    = (population_size_per_device * env_batch_size)%nat)
                 (reset the_env random_key)) as Hall.
  { unfold make_env. rewrite (Nat.mul_comm population_size_per_device).
    apply Hbatch. }
  exists (map (chunks population_size_per_device env_batch_size)
              (reset the_env random_key)).
  split.
  - unfold init_environments. fold the_env.
    change (make_eval_env create env_name env_batch_size
              population_size_per_device episode_length) with the_env.
    rewrite (reshape_fn_ok _ Hall). reflexivity.
  - induction Hall as [| leaf tree Hleaf _ IH]; cbn [map]; constructor;
      [| exact IH].
    destruct (chunks_shape population_size_per_device env_batch_size leaf Hleaf)
      as [Hshape Hcat].
    split; [exact Hshape |]. split; [exact Hcat |].
    intros p e He.
    rewrite <- (concat_lookup_rows env_batch_size) by (apply Hshape || exact He).
    rewrite Hcat. reflexivity.
Qed.

End InitEnvironmentsFacts.

Lemma init_environments_layout_witness :
  exists states : list (list (list nat)),
    init_environments toy_create toy_reset tt 2 3 1000 0%nat
    = Some (states, states)
    /\ Forall2 (fun flat rows =>
          has_shape 3 2 rows
          /\ concat rows = flat
          /\ forall p e, (e < 2)%nat ->
               at_device_slot rows p e = flat !! (p * 2 + e)%nat)
        (toy_reset (make_env toy_create tt 2 3 1000) 0%nat) states.
Proof.
  apply (init_environments_layout toy_create toy_reset tt 2 3 1000%Z 0%nat).
  intros name batch_size len auto key. unfold toy_reset, toy_create.
  constructor; [apply length_seq | constructor].
Defined.


(* ------------------------------------------------------------------ *)
(** *** The rollout cells *)
(* ------------------------------------------------------------------ *)

Section RolloutFacts.
Context {EnvState TrainingState Transition : Type}.
Variable play_step :
  EnvState -> TrainingState -> EnvState * TrainingState * Transition.

Abbreviation path := (play_trajectory play_step).

Lemma rollout_for_singletons (fuel : nat) (acc : list (list EnvState))
    (e : EnvState) (ts : TrainingState) :
  rollout_for play_step fuel acc [e] [ts]
  = Some (acc ++ map (fun j => [fst (path j e ts)]) (seq 0 fuel),
          [fst (path fuel e ts)], [snd (path fuel e ts)]).
Proof.
  revert acc e ts. induction fuel as [| fuel IH]; intros acc e ts.
  - cbn. rewrite app_nil_r. reflexivity.
  - cbn [rollout_for play_step_fn play_trajectory].
    destruct (play_step e ts) as [[e' ts'] tr] eqn:Ep.
    rewrite IH, <- app_assoc. cbn [seq map app].
    rewrite <- seq_shift, map_map. cbn [play_trajectory]. rewrite Ep.
    assert (map (fun j => [fst (path j e' ts')]) (seq 0 fuel)
            = map (fun j => [fst (path (S j) e ts)]) (seq 0 fuel)) as ->.
    { apply map_ext. intros j. cbn [play_trajectory]. rewrite Ep. reflexivity. }
    reflexivity.
Qed.

Lemma mapM_head_singletons {X Y : Type} (f : X -> Y) (l : list X) :
  mapM head (map (fun x => [f x]) l) = Some (map f l).
Proof.
  apply mapM_Some_2. induction l as [| x l IH]; cbn; constructor.
  - reflexivity.
  - exact IH.
Qed.

(** X12: the rollout cells always succeed (the leading axis added by
    [expand_dims] is the one [pmap] maps over and [x[0]] removes); the
    rollout holds [episode_length] states, the [t]-th being the
    environment state after [t] play steps, so it starts with the reset
    state and does not contain the state after the last step; and
    [rollout[:episode_length]] is the whole rollout. *)
Theorem rollout_is_play_trajectory (episode_length : Z)
    (training_state : TrainingState) (env_state : EnvState) :
  let states := map (fun t => fst (play_trajectory play_step t env_state training_state))
                    (seq 0 (Z.to_nat episode_length)) in
  rollout_cells play_step episode_length training_state env_state = Some states
  /\ length states = Z.to_nat episode_length
  /\ rendered_states episode_length states = states.
Proof.
  cbv zeta. split; [| split].
  - unfold rollout_cells, expand_dims.
    rewrite rollout_for_singletons. cbn [app].
    apply mapM_head_singletons.
  - rewrite length_map, length_seq. reflexivity.
  - unfold rendered_states.
    destruct (Z_lt_le_dec episode_length 0) as [Hneg | Hpos].
    + replace (Z.to_nat episode_length) with 0%nat by lia.
      unfold py_slice. cbn [seq map]. rewrite drop_nil. apply take_nil.
    + rewrite py_slice_prefix; [| exact Hpos |].
      * apply take_ge. rewrite length_map, length_seq. lia.
      * rewrite length_map, length_seq. lia.
Qed.
End RolloutFacts.

(* ------------------------------------------------------------------ *)
(** *** The scanned loops and the MOME plots *)
(* ------------------------------------------------------------------ *)

Lemma scan_carry_succ {Carry Y : Type} (f : Carry -> unit -> Carry * Y)
    (init : Carry) (n : nat) :
  scan_carry f init (S n) = fst (f (scan_carry f init n) tt).
Proof.
  revert init. induction n as [| n IH]; intros init; [reflexivity |].
  cbn [scan_carry] in *. rewrite <- IH. reflexivity.
Qed.

Lemma scan_outputs {Carry Y : Type} (f : Carry -> unit -> Carry * Y)
    (init : Carry) (n : nat) :
  snd (scan f init n)
  = map (fun i => snd (f (scan_carry f init i) tt)) (seq 0 n).
Proof.
  revert init. induction n as [| n IH]; intros init; [reflexivity |].
  cbn [scan]. destruct (f init tt) as [c y] eqn:Ef.
  specialize (IH c). destruct (scan f c n) as [c' ys]. cbn [snd] in *.
  cbn [seq map scan_carry]. rewrite Ef. cbn [snd]. f_equal.
  rewrite IH, <- seq_shift, map_map. apply map_ext. intros i.
  cbn [scan_carry]. rewrite Ef. reflexivity.
Qed.

Lemma scan_app {Carry Y : Type} (f : Carry -> unit -> Carry * Y)
    (init : Carry) (n m : nat) :
  scan f init (n + m)
  = (fst (scan f (fst (scan f init n)) m),
     snd (scan f init n) ++ snd (scan f (fst (scan f init n)) m)).
Proof.
  revert init. induction n as [| n IH]; intros init.
  - cbn. destruct (scan f init m). reflexivity.
  - cbn [Nat.add scan]. destruct (f init tt) as [c y].
    rewrite IH. destruct (scan f c n) as [c' ys]. reflexivity.
Qed.

Lemma wrap_int32_fits (z : Z) : in_int32 z = true -> wrap_int32 z = z.
Proof.
  unfold in_int32, wrap_int32. intros H.
  apply andb_true_iff in H as [Hlo Hhi].
  apply Z.leb_le in Hlo. apply Z.leb_le in Hhi.
  rewrite Z.mod_small by lia. lia.
Qed.

Section ScanFacts.
Context {Repertoire EmitterState RNGKey Metrics : Type}.
Variable scan_update :
  Repertoire * EmitterState * RNGKey -> unit ->
  (Repertoire * EmitterState * RNGKey) * Metrics.

Abbreviation cell := (run_scan_cell scan_update).

(** X13: entry [i] of the stacked metrics is the output of
    [scan_update] on the carry after [i] iterations.  With no iteration
    the carry is returned as it was and the metrics are empty (so
    [metrics[...][-1]] has nothing to read); otherwise the last metrics
    entry and the returned repertoire come from the same, final call. *)
Theorem scan_metrics_entries (num_iterations : nat)
    (repertoire : Repertoire) (emitter_state : EmitterState)
    (random_key : RNGKey) :
  let init := (repertoire, emitter_state, random_key) in
  let r := run_scan_cell scan_update num_iterations repertoire emitter_state random_key in
  (forall i, (i < num_iterations)%nat ->
     snd r !! i = Some (snd (scan_update (scan_carry scan_update init i) tt)))
  /\ (num_iterations = 0%nat -> r = (init, []))
  /\ (forall n, num_iterations = S n ->
        let final_call := scan_update (scan_carry scan_update init n) tt in
        fst r = fst final_call /\ last (snd r) = Some (snd final_call)).
Proof.
  cbv zeta. unfold run_scan_cell. split; [| split].
  - intros i Hi. rewrite scan_outputs, list_lookup_fmap, lookup_seq_lt by exact Hi.
    reflexivity.
  - intros ->. reflexivity.
  - intros n ->. split.
    + rewrite scan_final_carry. apply scan_carry_succ.
    + rewrite scan_outputs.
      apply (last_map_seq
               (fun i => snd (scan_update
                                (scan_carry scan_update
                                   (repertoire, emitter_state, random_key) i)
                                tt))).
Qed.

(** X14: running the cell for [n + m] iterations is running it for [n]
    iterations and then for [m] more from the carry it returned, the
    metrics of the second run following those of the first. *)
Theorem scan_cell_resumes (n m : nat)
    (repertoire : Repertoire) (emitter_state : EmitterState)
    (random_key : RNGKey) :
  let first := run_scan_cell scan_update n repertoire emitter_state random_key in
  let '(repertoire', emitter_state', random_key') := fst first in
  let second := run_scan_cell scan_update m repertoire' emitter_state' random_key' in
  run_scan_cell scan_update (n + m) repertoire emitter_state random_key
  = (fst second, snd first ++ snd second).
Proof.
  cbv zeta. unfold run_scan_cell. rewrite scan_app.
  destruct (fst (scan scan_update (repertoire, emitter_state, random_key) n))
    as [[rep' em'] key']. reflexivity.
Qed.

(** X15: when [batch_size] and [num_iterations] fit 32 bits, the x axis
    of the MOME plots has one point per scanned iteration, so it has
    the length of every metrics series it is plotted against; its
    [i]-th point is [batch_size * i] wrapped to 32 bits, which is
    [batch_size * i] itself as long as that product fits. *)
Theorem plot_steps_align (batch_size : Z) (num_iterations : nat)
    (repertoire : Repertoire) (emitter_state : EmitterState)
    (random_key : RNGKey) :
  in_int32 batch_size = true ->
  in_int32 (Z.of_nat num_iterations) = true ->
  exists steps : list Z,
    plot_steps batch_size (Z.of_nat num_iterations) = Some steps
    /\ length steps
       = length (snd (run_scan_cell scan_update num_iterations
                                    repertoire emitter_state random_key))
    /\ forall i, (i < num_iterations)%nat ->
         steps !! i = Some (wrap_int32 (batch_size * Z.of_nat i))
         /\ (in_int32 (batch_size * Z.of_nat i) = true ->
             steps !! i = Some (batch_size * Z.of_nat i)%Z).
Proof.
  intros Hb Hn. unfold plot_steps. rewrite Hb, Hn. cbn [andb].
  eexists. split; [reflexivity |].
  unfold arange, run_scan_cell. rewrite Z.sub_0_r, Nat2Z.id. split.
  - rewrite scan_length, !length_map, length_seq. reflexivity.
  - intros i Hi.
    assert (map (fun i0 : Z => wrap_int32 (batch_size * i0))
                (map (fun i0 : nat => (0 + Z.of_nat i0)%Z) (seq 0 num_iterations))
              !! i
            = Some (wrap_int32 (batch_size * Z.of_nat i))) as Hlook.
    { rewrite !list_lookup_fmap, lookup_seq_lt by exact Hi. reflexivity. }
    split; [exact Hlook |].
    intros Hfit. rewrite Hlook. f_equal. apply wrap_int32_fits. exact Hfit.
Qed.
End ScanFacts.

Lemma plot_steps_align_witness :
  exists steps : list Z,
    plot_steps 100 (Z.of_nat 4) = Some steps
    /\ length steps
       = length (snd (run_scan_cell toy_scan_update 4 0%nat 0%nat 0%nat))
    /\ forall i, (i < 4)%nat ->
         steps !! i = Some (wrap_int32 (100 * Z.of_nat i))
         /\ (in_int32 (100 * Z.of_nat i) = true ->
             steps !! i = Some (100 * Z.of_nat i)%Z).
Proof.
  apply (plot_steps_align toy_scan_update 100%Z 4 0%nat 0%nat 0%nat);
    reflexivity.
Defined.

(** Runs on the small inputs: a three-step rollout, a scanned counter,
    and the history of the toy optimiser that stops after three
    updates. *)
Example rollout_three_steps :
  rollout_cells toy_play_step 3 0%nat 5%nat = Some [5; 6; 7]%nat.
Proof. reflexivity. Qed.

Example scan_four_iterations :
  run_scan_cell toy_scan_update 4 0%nat 0%nat 0%nat
  = ((4, 0, 0)%nat, [0; 1; 2; 3]%nat)
  /\ plot_steps 100 4 = Some [0; 100; 200; 300]%Z
  /\ plot_steps 1073741824 3 = Some [0; 1073741824; -2147483648]%Z
  /\ plot_steps 4294967296 3 = None.
Proof. repeat split. Qed.

Example toy_cmaes_history :
  means (toy_cmaes 1000) = [0; 1; 2]%nat
  /\ plotted_trajectory (toy_cmaes 1000) = [(0, 0); (1, 1); (2, 2)]%nat
  /\ final_mean (toy_cmaes 1000) = Some 2%nat
  /\ samples (toy_cmaes 1000) = Some tt
  /\ means (toy_cmaes 2) = [0; 1; 2]%nat
  /\ plotted_trajectory (toy_cmaes 2) = [(0, 0); (1, 1)]%nat.
Proof. vm_compute. repeat split. Qed.
